(** * math101: counting quadruples 1 <= a < b < c < d <= M with a given sum

    Shallow embedding of [src/dp.py], [src/pair_sum.py] and [src/main.py]
    together with the combinatorial specification they are checked against.

    Python integers are unbounded, so they are modelled by [Z].  Python's
    [//] and [%] round towards minus infinity, exactly like [Z.div] and
    [Z.modulo].  Exceptions are modelled by the error monad [py]. *)

From Stdlib Require Import String DecimalString.
From Stdlib Require Import ZArith List Lia Bool Arith.
Import ListNotations.
Open Scope Z_scope.

(* ===================================================================== *)
(** ** A small model of the Python runtime *)
(* ===================================================================== *)

Inductive exn : Type :=
| IndexError
| ValueError
| ZeroDivisionError.

Inductive py (A : Type) : Type :=
| Ret (a : A)
| Raise (e : exn).

Arguments Ret {A} a.
Arguments Raise {A} e.

Definition bind {A B : Type} (m : py A) (k : A -> py B) : py B :=
  match m with
  | Ret a => k a
  | Raise e => Raise e
  end.

Notation "x <- m ;; k" := (bind m (fun x => k))
  (at level 61, m at next level, right associativity).

(** [range(start, stop)] *)
Definition range (start stop : Z) : list Z :=
  map (fun i => start + Z.of_nat i) (seq 0 (Z.to_nat (stop - start))).

(** [range(start, stop, -1)] *)
Definition range_down (start stop : Z) : list Z :=
  map (fun i => start - Z.of_nat i) (seq 0 (Z.to_nat (start - stop))).

(** Index normalisation of [list.__getitem__] / [list.__setitem__]:
    indices in [-len, 0) count from the end, anything outside
    [-len, len) raises [IndexError]. *)
Definition index_of (len i : Z) : py nat :=
  if (0 <=? i) && (i <? len) then Ret (Z.to_nat i)
  else if (i <? 0) && (- len <=? i) then Ret (Z.to_nat (i + len))
  else Raise IndexError.

Fixpoint update {A : Type} (l : list A) (n : nat) (x : A) : list A :=
  match l, n with
  | [], _ => []
  | _ :: t, O => x :: t
  | h :: t, S n' => h :: update t n' x
  end.

Definition getitem {A : Type} (l : list A) (i : Z) : py A :=
  n <- index_of (Z.of_nat (length l)) i ;;
  match nth_error l n with
  | Some x => Ret x
  | None => Raise IndexError
  end.

Definition setitem {A : Type} (l : list A) (i : Z) (x : A) : py (list A) :=
  n <- index_of (Z.of_nat (length l)) i ;;
  Ret (update l n x).

(** [for x in xs: body], threading the variables the body assigns. *)
Fixpoint for_each {S : Type} (xs : list Z) (body : Z -> S -> py S) (s : S)
  : py S :=
  match xs with
  | [] => Ret s
  | x :: xs' => s' <- body x s ;; for_each xs' body s'
  end.

(** [a // b] and [a % b] *)
Definition floordiv (a b : Z) : py Z :=
  if b =? 0 then Raise ZeroDivisionError else Ret (a / b).

Definition pymod (a b : Z) : py Z :=
  if b =? 0 then Raise ZeroDivisionError else Ret (a mod b).

Fixpoint factorial (n : nat) : Z :=
  match n with
  | O => 1
  | S n' => Z.of_nat n * factorial n'
  end.

(** [math.comb(n, k)]: n! / (k! * (n - k)!) when k <= n, zero when k > n,
    [ValueError] on a negative argument. *)
Definition comb (n k : Z) : py Z :=
  if (n <? 0) || (k <? 0) then Raise ValueError
  else if n <? k then Ret 0
  else Ret (factorial (Z.to_nat n)
            / (factorial (Z.to_nat k) * factorial (Z.to_nat (n - k)))).

(** Truthiness of an [str | None] value: [None] and the empty string are
    false. *)
Definition truthy (s : option string) : bool :=
  match s with
  | Some s' => negb (String.eqb s' EmptyString)
  | None => false
  end.

(** [s or default] *)
Definition str_or (s : option string) (default : string) : string :=
  match s with
  | Some s' => if String.eqb s' EmptyString then default else s'
  | None => default
  end.

(** [str(z)] for an integer *)
Definition str_of_int (z : Z) : string := NilZero.string_of_int (Z.to_int z).

(** *** The progress bar

    [tqdm.rich.tqdm] is an external collaborator.  A bar wraps an iterable
    together with its display options; iterating the bar yields the items
    of the wrapped iterable, in order. *)
Record tqdm_bar : Type := mk_tqdm {
  bar_iterable : list Z;
  bar_desc : string;
  bar_unit : string;
  bar_dynamic_ncols : bool;
  bar_leave : bool;
  bar_position : option Z
}.

Definition tqdm (iterable : list Z) (desc unit : string)
  (dynamic_ncols leave : bool) (position : option Z) : tqdm_bar :=
  mk_tqdm iterable desc unit dynamic_ncols leave position.

Definition iter_bar (b : tqdm_bar) : list Z := bar_iterable b.

(* ===================================================================== *)
(** ** src/dp.py *)
(* ===================================================================== *)

(** One execution of
    [count_table[numbers_selected][current_sum] +=
       count_table[numbers_selected - 1][current_sum - candidate]].
    The rows of the table are distinct list objects, so mutating a row in
    place is the replacement of that row in the table. *)
Definition dp_update (candidate numbers_selected current_sum : Z)
  (count_table : list (list Z)) : py (list (list Z)) :=
  row <- getitem count_table numbers_selected ;;
  old <- getitem row current_sum ;;
  prev <- getitem count_table (numbers_selected - 1) ;;
  inc <- getitem prev (current_sum - candidate) ;;
  row' <- setitem row current_sum (old + inc) ;;
  setitem count_table numbers_selected row'.

Definition count_quadruples (target_sum max_value : Z)
  (show_progress : bool) (progress_position : option Z)
  (progress_desc : option string) : py Z :=
  if (target_sum <? 10) || (target_sum >? 4 * max_value - 6) then Ret 0
  else
    let count_table :=
      map (fun _ => repeat 0 (Z.to_nat (target_sum + 1))) (range 0 5) in
    row0 <- getitem count_table 0 ;;
    row0 <- setitem row0 0 1 ;;
    count_table <- setitem count_table 0 row0 ;;
    let iterator :=
      if show_progress then
        iter_bar (tqdm (range 1 (max_value + 1))
                       (str_or progress_desc "Processing numbers")
                       "num" true false progress_position)
      else range 1 (max_value + 1) in
    count_table <-
      for_each iterator (fun candidate count_table =>
        for_each (range_down 4 0) (fun numbers_selected count_table =>
          for_each (range_down target_sum (candidate - 1))
            (fun current_sum count_table =>
               dp_update candidate numbers_selected current_sum count_table)
            count_table)
          count_table)
        count_table ;;
    row4 <- getitem count_table 4 ;;
    getitem row4 target_sum.

(* ===================================================================== *)
(** ** src/pair_sum.py *)
(* ===================================================================== *)

Definition count_quadruples_pair_sum (target_sum upper_bound : Z)
  (show_progress : bool) (progress_position : option Z)
  (progress_desc : option string) : py Z :=
  if (target_sum <? 10) || (target_sum >? 4 * upper_bound - 6) then Ret 0
  else
    let pair_counts := repeat 0 (Z.to_nat (2 * upper_bound + 1)) in
    let total := 0 in
    let base_range := range_down (upper_bound - 2) 1 in
    let indices :=
      if show_progress then
        iter_bar (tqdm base_range (str_or progress_desc "Sweeping b")
                       "it" true false progress_position)
      else base_range in
    st <-
      for_each indices (fun second st =>
        let '(pair_counts, total) := st in
        let third := second + 1 in
        pair_counts <-
          for_each (range (third + 1) (upper_bound + 1))
            (fun fourth pair_counts =>
               old <- getitem pair_counts (third + fourth) ;;
               setitem pair_counts (third + fourth) (old + 1))
            pair_counts ;;
        let sum_without_first := target_sum - second in
        total <-
          for_each (range 1 second)
            (fun first total =>
               let target := sum_without_first - first in
               if (0 <=? target) && (target <=? 2 * upper_bound) then
                 x <- getitem pair_counts target ;;
                 Ret (total + x)
               else Ret total)
            total ;;
        Ret (pair_counts, total))
        (pair_counts, total) ;;
    Ret (snd st).

(* ===================================================================== *)
(** ** src/main.py *)
(* ===================================================================== *)

(** [@timed]: the wrapped function's result paired with the elapsed time.
    The two readings of [perf_counter()] come from the environment; their
    difference is the supplied [elapsed]. *)
Definition timed {A T : Type} (elapsed : T) (func : py A) : py (A * T) :=
  result <- func ;;
  Ret (result, elapsed).

Definition formula_body (n : Z) : py Z :=
  if n <? 5 then Ret 0
  else
    c <- comb n 4 ;;
    base <- floordiv (c * 4) n ;;
    r <- pymod n 4 ;;
    if (r =? 1) || (r =? 3) then floordiv base 4
    else if r =? 2 then floordiv (base * 2 + n - 2) 8
    else if r =? 0 then floordiv (base * 2 + n - 6) 8
    else Ret 0.

Definition solve_with_formula {T : Type} (elapsed : T) (n : Z) : py (Z * T) :=
  timed elapsed (formula_body n).

(** [progress_desc] handed to the counter for one multiplier:
    [f"{progress_desc} (mult={multiplier})" if progress_desc else None]. *)
Definition mult_desc (progress_desc : option string) (multiplier : Z)
  : option string :=
  if truthy progress_desc then
    Some (str_or progress_desc "" ++ " (mult=" ++ str_of_int multiplier ++ ")")%string
  else None.

(** [sum(counter(n * multiplier, n, ...) for multiplier in (1, 2, 3))] *)
Definition sum_over_multipliers
  (counter : Z -> Z -> bool -> option Z -> option string -> py Z)
  (n : Z) (show_progress : bool) (progress_position : option Z)
  (progress_desc : option string) : py Z :=
  for_each [1; 2; 3] (fun multiplier acc =>
    x <- counter (n * multiplier) n show_progress progress_position
           (mult_desc progress_desc multiplier) ;;
    Ret (acc + x)) 0.

Definition solve_with_dp {T : Type} (elapsed : T) (n : Z)
  (show_progress : bool) (progress_position : option Z)
  (progress_desc : option string) : py (Z * T) :=
  timed elapsed
    (sum_over_multipliers count_quadruples n show_progress progress_position
       progress_desc).

Definition solve_with_pair_sum {T : Type} (elapsed : T) (n : Z)
  (show_progress : bool) (progress_position : option Z)
  (progress_desc : option string) : py (Z * T) :=
  timed elapsed
    (sum_over_multipliers count_quadruples_pair_sum n show_progress
       progress_position progress_desc).

(** The result component of a timed call. *)
Definition result_of {A T : Type} (r : py (A * T)) : py A :=
  p <- r ;; Ret (fst p).

(** *** The verification harness: the [__main__] block of src/main.py *)

Definition lst : list Z :=
  [1; 2; 3; 4; 5; 6; 7; 8; 9; 10; 101; 303; 384; 390; 505; 676; 888; 1024].

(** [len({a, b, c})]: the number of distinct values. *)
Definition distinct_count (xs : list Z) : nat :=
  length (nodup Z.eq_dec xs).

(** [sep.join(parts)] *)
Fixpoint join (sep : string) (parts : list string) : string :=
  match parts with
  | [] => EmptyString
  | [p] => p
  | p :: rest => (p ++ sep ++ join sep rest)%string
  end.

(** A [rich.table.Table]: its title, its column headers and the rows added
    so far; [add_row] appends. *)
Record rich_table : Type := mk_table {
  table_title : string;
  table_columns : list string;
  table_rows : list (list string)
}.

(** What [console.print] receives. *)
Inductive printed : Type :=
| PrintMarkup (text : string)
| PrintTable (t : rich_table).

(** One iteration of [for n in lst].  The state is the rows of the table,
    the list [mismatches] and the position of [total_bar].  [elapsed k] is
    the duration the environment measures for the k-th timed call, and
    [fmt] renders a duration as [f"{t:.6f}"]. *)
Definition harness_step {T : Type} (elapsed : nat -> T) (fmt : T -> string)
  (n : Z) (st : list (list string) * list Z * Z)
  : py (list (list string) * list Z * Z) :=
  let '(rows, mismatches, bar_n) := st in
  let call := (3 * length rows)%nat in
  fr <- solve_with_formula (elapsed call) n ;;
  let '(formula_result, formula_time) := fr in
  dr <- solve_with_dp (elapsed (call + 1)%nat) n true (Some 1)
          (Some ("DP n=" ++ str_of_int n)%string) ;;
  let '(dp_result, dp_time) := dr in
  pr <- solve_with_pair_sum (elapsed (call + 2)%nat) n true (Some 1)
          (Some ("Pair n=" ++ str_of_int n)%string) ;;
  let '(pair_result, pair_time) := pr in
  let rows :=
    rows ++ [[str_of_int n;
              str_of_int formula_result; fmt formula_time;
              str_of_int dp_result; fmt dp_time;
              str_of_int pair_result; fmt pair_time]] in
  let mismatches :=
    if negb (distinct_count [formula_result; dp_result; pair_result] =? 1)%nat
    then mismatches ++ [n] else mismatches in
  Ret (rows, mismatches, bar_n + 1).

(** The harness on a list of values: what it prints, in order, and the
    final position of [total_bar] (whose total is [len(lst)]). *)
Definition harness {T : Type} (elapsed : nat -> T) (fmt : T -> string)
  (values : list Z) : py (list printed * Z) :=
  st <- for_each values (harness_step elapsed fmt) ([], [], 0) ;;
  let '(rows, mismatches, bar_n) := st in
  let warning :=
    match mismatches with
    | [] => []
    | _ :: _ =>
        [PrintMarkup ("[bold red]Warning:[/bold red] Results differ for n="
                      ++ join ", " (map str_of_int mismatches) ++ ".")%string]
    end in
  Ret (warning ++
       [PrintTable
          (mk_table "Quadruple Counts"
             ["n"; "公式结果"; "公式耗时(s)"; "DP结果"; "DP耗时(s)";
              "Pair结果"; "Pair耗时(s)"]%string
             rows)],
       bar_n).

Definition harness_main {T : Type} (elapsed : nat -> T) (fmt : T -> string)
  : py (list printed * Z) :=
  harness elapsed fmt lst.

(* ===================================================================== *)
(** ** Allocation traces of the two counters *)
(* ===================================================================== *)

(** The list objects a call creates, in order: [NewList] is the empty list
    a list comprehension starts from, [NewZeros len] is the list built by
    [[0] * len]. *)
Inductive event : Type :=
| NewList
| NewZeros (len : Z).

(** A computation together with the lists it has created so far. *)
Definition traced (A : Type) : Type := (list event * py A)%type.

Definition tret {A : Type} (a : A) : traced A := ([], Ret a).

Definition tbind {A B : Type} (m : traced A) (k : A -> traced B)
  : traced B :=
  match m with
  | (ev, Ret a) => let '(ev', r) := k a in (ev ++ ev', r)
  | (ev, Raise e) => (ev, Raise e)
  end.

(** A step that creates no list. *)
Definition lift {A : Type} (m : py A) : traced A := ([], m).

(** [[0] * len] *)
Definition new_zeros (len : Z) : traced (list Z) :=
  ([NewZeros len], Ret (repeat 0 (Z.to_nat len))).

(** The elements of [[e for x in xs]], appended one by one. *)
Fixpoint comprehension_items {A : Type} (xs : list Z) (e : Z -> traced A)
  : traced (list A) :=
  match xs with
  | [] => tret []
  | x :: xs' =>
      tbind (e x) (fun a =>
      tbind (comprehension_items xs' e) (fun l => tret (a :: l)))
  end.

(** [[e for x in xs]] *)
Definition comprehension {A : Type} (xs : list Z) (e : Z -> traced A)
  : traced (list A) :=
  tbind ([NewList], Ret tt) (fun _ => comprehension_items xs e).

(** src/dp.py, lines 23-45: what [count_quadruples] does with the table
    once it is built. *)
Definition dp_run (target_sum max_value : Z)
  (show_progress : bool) (progress_position : option Z)
  (progress_desc : option string) (count_table : list (list Z)) : py Z :=
  row0 <- getitem count_table 0 ;;
  row0 <- setitem row0 0 1 ;;
  count_table <- setitem count_table 0 row0 ;;
  let iterator :=
    if show_progress then
      iter_bar (tqdm (range 1 (max_value + 1))
                     (str_or progress_desc "Processing numbers")
                     "num" true false progress_position)
    else range 1 (max_value + 1) in
  count_table <-
    for_each iterator (fun candidate count_table =>
      for_each (range_down 4 0) (fun numbers_selected count_table =>
        for_each (range_down target_sum (candidate - 1))
          (fun current_sum count_table =>
             dp_update candidate numbers_selected current_sum count_table)
          count_table)
        count_table)
      count_table ;;
  row4 <- getitem count_table 4 ;;
  getitem row4 target_sum.

(** src/dp.py, lines 19-45, with the lists created on the way. *)
Definition count_quadruples_traced (target_sum max_value : Z)
  (show_progress : bool) (progress_position : option Z)
  (progress_desc : option string) : traced Z :=
  if (target_sum <? 10) || (target_sum >? 4 * max_value - 6) then tret 0
  else
    tbind (comprehension (range 0 5) (fun _ => new_zeros (target_sum + 1)))
      (fun count_table =>
         lift (dp_run target_sum max_value show_progress progress_position
                 progress_desc count_table)).

(** src/pair_sum.py, lines 34-60: what [count_quadruples_pair_sum] does
    with the histogram once it is built. *)
Definition sweep_run (target_sum upper_bound : Z)
  (show_progress : bool) (progress_position : option Z)
  (progress_desc : option string) (pair_counts : list Z) : py Z :=
  let total := 0 in
  let base_range := range_down (upper_bound - 2) 1 in
  let indices :=
    if show_progress then
      iter_bar (tqdm base_range (str_or progress_desc "Sweeping b")
                     "it" true false progress_position)
    else base_range in
  st <-
    for_each indices (fun second st =>
      let '(pair_counts, total) := st in
      let third := second + 1 in
      pair_counts <-
        for_each (range (third + 1) (upper_bound + 1))
          (fun fourth pair_counts =>
             old <- getitem pair_counts (third + fourth) ;;
             setitem pair_counts (third + fourth) (old + 1))
          pair_counts ;;
      let sum_without_first := target_sum - second in
      total <-
        for_each (range 1 second)
          (fun first total =>
             let target := sum_without_first - first in
             if (0 <=? target) && (target <=? 2 * upper_bound) then
               x <- getitem pair_counts target ;;
               Ret (total + x)
             else Ret total)
          total ;;
      Ret (pair_counts, total))
      (pair_counts, total) ;;
  Ret (snd st).

(** src/pair_sum.py, lines 30-60, with the lists created on the way. *)
Definition count_quadruples_pair_sum_traced (target_sum upper_bound : Z)
  (show_progress : bool) (progress_position : option Z)
  (progress_desc : option string) : traced Z :=
  if (target_sum <? 10) || (target_sum >? 4 * upper_bound - 6) then tret 0
  else
    tbind (new_zeros (2 * upper_bound + 1))
      (fun pair_counts =>
         lift (sweep_run target_sum upper_bound show_progress
                 progress_position progress_desc pair_counts)).

(* ===================================================================== *)
(** ** The combinatorial specification *)
(* ===================================================================== *)

(** All 4-tuples over a list of candidates, as the comprehension
    [[(a, b, c, d) for a in R for b in R for c in R for d in R]]. *)
Definition tuples4 (R : list Z) : list (Z * Z * Z * Z) :=
  flat_map (fun a =>
    flat_map (fun b =>
      flat_map (fun c =>
        map (fun d => (a, b, c, d)) R) R) R) R.

Definition quad_sum (q : Z * Z * Z * Z) : Z :=
  let '(a, b, c, d) := q in a + b + c + d.

Definition increasing (q : Z * Z * Z * Z) : bool :=
  let '(a, b, c, d) := q in (a <? b) && (b <? c) && (c <? d).

(** The quadruples 1 <= a < b < c < d <= M. *)
Definition all_quadruples (M : Z) : list (Z * Z * Z * Z) :=
  filter increasing (tuples4 (range 1 (M + 1))).

(** Those with a + b + c + d = N. *)
Definition quadruples (N M : Z) : list (Z * Z * Z * Z) :=
  filter (fun q => quad_sum q =? N) (all_quadruples M).

Definition quadruple_count (N M : Z) : Z :=
  Z.of_nat (length (quadruples N M)).

(** [divides n s]: n divides s (for n = 0 this is s = 0). *)
Definition divides (n s : Z) : bool := s mod n =? 0.

(** The quadruples 1 <= a < b < c < d <= n whose sum is divisible by n. *)
Definition divisible_quadruples (n : Z) : list (Z * Z * Z * Z) :=
  filter (fun q => divides n (quad_sum q)) (all_quadruples n).

Definition divisible_count (n : Z) : Z :=
  Z.of_nat (length (divisible_quadruples n)).

(* ===================================================================== *)
(** ** Auxiliary definitions for the proofs *)
(* ===================================================================== *)

(** Finite sums of integers indexed by a list. *)
Definition sumZ {A : Type} (f : A -> Z) (l : list A) : Z :=
  fold_right (fun x acc => f x + acc) 0 l.

(** Indicator of a boolean. *)
Definition ind (b : bool) : Z := if b then 1 else 0.

(** [wsub w lo len k off] is the sum of [w (off + x1 + ... + xk)] over all
    k-element subsets {x1, ..., xk} of {lo + 1, ..., lo + len}.  The
    recursion decides whether the largest candidate is taken, as one pass of
    the dynamic program does. *)
Fixpoint wsub (w : Z -> Z) (lo : Z) (len k : nat) (off : Z) : Z :=
  match len with
  | O => match k with O => w off | S _ => 0 end
  | S len' =>
      wsub w lo len' k off +
      match k with
      | O => 0
      | S k' => wsub w lo len' k' (off + (lo + Z.of_nat len))
      end
  end.

(** Number of k-element subsets of {1, ..., v} with sum s: the value the
    dynamic program keeps in [count_table[k][s]] after candidate v. *)
Definition subset_count (v k : nat) (s : Z) : Z :=
  wsub (fun x => ind (x =? s)) 0 v k 0.

(** Number of pairs c < d <= M with b < c and c + d = t: the value the
    pair-sum sweep keeps in [pair_counts[t]] after [second = b]. *)
Definition pairs_above (M b t : Z) : Z :=
  sumZ (fun c => sumZ (fun d => ind (c + d =? t)) (range (c + 1) (M + 1)))
       (range (b + 1) M).

(** Running total of the pair-sum sweep after [second = b]. *)
Definition sweep_total (N M b : Z) : Z :=
  sumZ (fun b' => sumZ (fun a => pairs_above M b' (N - b' - a)) (range 1 b'))
       (range b (M - 1)).

(** Characters of the integers: (-1)^s, and the real and imaginary parts
    of i^s. *)
Definition sgn (s : Z) : Z := if s mod 2 =? 0 then 1 else -1.

Definition re4 (s : Z) : Z :=
  let r := s mod 4 in if r =? 0 then 1 else if r =? 2 then -1 else 0.

Definition im4 (s : Z) : Z :=
  let r := s mod 4 in if r =? 1 then 1 else if r =? 3 then -1 else 0.

(** Table access used to state the loop invariants. *)
Definition cell (t : list (list Z)) (k : nat) (s : Z) : Z :=
  nth (Z.to_nat s) (nth k t []) 0.

Definition table_shape (N : Z) (t : list (list Z)) : Prop :=
  length t = 5%nat /\
  forall k, (k < 5)%nat -> length (nth k t []) = Z.to_nat (N + 1).

(** State of the table while candidate [S c] is processed: the rows above
    [j] already count subsets of {1..S c}, row [j] does so at the sums above
    [i], and every other cell still counts subsets of {1..c}. *)
Definition dp_inv (N : Z) (c : nat) (j i : Z) (t : list (list Z)) : Prop :=
  table_shape N t /\
  forall k s, (k < 5)%nat -> 0 <= s <= N ->
    cell t k s =
    if (j <? Z.of_nat k) || ((Z.of_nat k =? j) && (i <? s))
    then subset_count (S c) k s else subset_count c k s.

(** State of the pair-sum sweep when every [second] above [i] is done. *)
Definition sweep_inv (N M i : Z) (st : list Z * Z) : Prop :=
  length (fst st) = Z.to_nat (2 * M + 1) /\
  (forall t, 0 <= t <= 2 * M ->
     nth (Z.to_nat t) (fst st) 0 = pairs_above M (i + 1) t) /\
  snd st = sweep_total N M (i + 1).

(** Number of 4-subsets of {1..len} whose sum is congruent to [r] modulo
    [len]. *)
Definition class_count (len : nat) (r : Z) : Z :=
  wsub (fun s => ind (divides (Z.of_nat len) (s - r))) 0 len 4 0.

(** The rows the harness is expected to add from call index [3 * i] on:
    one per value, each result cell holding the number of quadruples whose
    sum is divisible by the value. *)
Fixpoint report_rows {T : Type} (elapsed : nat -> T) (fmt : T -> string)
  (i : nat) (values : list Z) : list (list string) :=
  match values with
  | [] => []
  | n :: rest =>
      [str_of_int n;
       str_of_int (divisible_count n); fmt (elapsed (3 * i)%nat);
       str_of_int (divisible_count n); fmt (elapsed (3 * i + 1)%nat);
       str_of_int (divisible_count n); fmt (elapsed (3 * i + 2)%nat)]
      :: report_rows elapsed fmt (S i) rest
  end.

(** Adjustment term of the closed formula, by residue of n modulo 4. *)
Definition formula_adjust (n : Z) : Z :=
  if n mod 4 =? 2 then n - 2 else if n mod 4 =? 0 then n - 6 else 0.

(** Four nested sums over the same index list. *)
Definition sum4 (R : list Z) (f : Z -> Z -> Z -> Z -> Z) : Z :=
  sumZ (fun a => sumZ (fun b => sumZ (fun c => sumZ (fun d =>
    f a b c d) R) R) R) R.

(* ===================================================================== *)
(** ** Ranges *)
(* ===================================================================== *)

Lemma range_nil lo hi : hi <= lo -> range lo hi = [].
Proof.
  intros H. unfold range.
  replace (Z.to_nat (hi - lo)) with 0%nat by lia. reflexivity.
Qed.

Lemma range_cons lo hi : lo < hi -> range lo hi = lo :: range (lo + 1) hi.
Proof.
  intros H. unfold range.
  replace (Z.to_nat (hi - lo)) with (S (Z.to_nat (hi - (lo + 1)))) by lia.
  cbn [seq map]. f_equal; [lia|].
  rewrite <- seq_shift, map_map. apply map_ext. intros i. lia.
Qed.

Lemma range_snoc lo hi : lo <= hi -> range lo (hi + 1) = range lo hi ++ [hi].
Proof.
  intros H. unfold range.
  replace (Z.to_nat (hi + 1 - lo)) with (S (Z.to_nat (hi - lo))) by lia.
  rewrite seq_S, map_app. cbn [map Nat.add]. do 2 f_equal. lia.
Qed.

Lemma range_app lo m hi :
  lo <= m <= hi -> range lo hi = range lo m ++ range m hi.
Proof.
  intros [H1 H2]. remember (Z.to_nat (m - lo)) as n eqn:En.
  revert lo H1 En. induction n as [|n IH]; intros lo H1 En.
  - replace m with lo by lia. now rewrite (range_nil lo lo) by lia.
  - rewrite (range_cons lo hi), (range_cons lo m) by lia.
    cbn [app]. f_equal. apply IH; lia.
Qed.

Lemma In_range lo hi x : In x (range lo hi) <-> lo <= x < hi.
Proof.
  unfold range. rewrite in_map_iff. split.
  - intros (i & <- & Hi). apply in_seq in Hi. lia.
  - intros H. exists (Z.to_nat (x - lo)). split; [lia|].
    apply in_seq. lia.
Qed.

Lemma range_down_nil hi lo : hi <= lo -> range_down hi lo = [].
Proof.
  intros H. unfold range_down.
  replace (Z.to_nat (hi - lo)) with 0%nat by lia. reflexivity.
Qed.

Lemma range_down_cons hi lo :
  lo < hi -> range_down hi lo = hi :: range_down (hi - 1) lo.
Proof.
  intros H. unfold range_down.
  replace (Z.to_nat (hi - lo)) with (S (Z.to_nat (hi - 1 - lo))) by lia.
  cbn [seq map]. f_equal; [lia|].
  rewrite <- seq_shift, map_map. apply map_ext. intros i. lia.
Qed.

(* ===================================================================== *)
(** ** Finite sums *)
(* ===================================================================== *)

Lemma sumZ_nil {A} (f : A -> Z) : sumZ f [] = 0.
Proof. reflexivity. Qed.

Lemma sumZ_cons {A} (f : A -> Z) x l : sumZ f (x :: l) = f x + sumZ f l.
Proof. reflexivity. Qed.

Lemma sumZ_app {A} (f : A -> Z) l1 l2 :
  sumZ f (l1 ++ l2) = sumZ f l1 + sumZ f l2.
Proof.
  induction l1 as [|x l1 IH]; [reflexivity|].
  cbn [app]. rewrite !sumZ_cons, IH. lia.
Qed.

Lemma sumZ_ext {A} (f g : A -> Z) l :
  (forall x, In x l -> f x = g x) -> sumZ f l = sumZ g l.
Proof.
  induction l as [|x l IH]; intros H; [reflexivity|].
  rewrite !sumZ_cons, H, IH; [reflexivity| |now left].
  intros y Hy. apply H. now right.
Qed.

Lemma sumZ_zero {A} (f : A -> Z) l :
  (forall x, In x l -> f x = 0) -> sumZ f l = 0.
Proof.
  induction l as [|x l IH]; intros H; [reflexivity|].
  rewrite sumZ_cons, H, IH; [reflexivity| |now left].
  intros y Hy. apply H. now right.
Qed.

Lemma sumZ_plus {A} (f g : A -> Z) l :
  sumZ (fun x => f x + g x) l = sumZ f l + sumZ g l.
Proof.
  induction l as [|x l IH]; [reflexivity|].
  rewrite !sumZ_cons, IH. lia.
Qed.

Lemma sumZ_swap {A B} (f : A -> B -> Z) l1 l2 :
  sumZ (fun x => sumZ (fun y => f x y) l2) l1 =
  sumZ (fun y => sumZ (fun x => f x y) l1) l2.
Proof.
  induction l1 as [|x l1 IH].
  - cbn [sumZ fold_right]. symmetry. now apply sumZ_zero.
  - rewrite sumZ_cons, IH, <- sumZ_plus. reflexivity.
Qed.

Lemma sumZ_map {A B} (g : A -> B) (f : B -> Z) l :
  sumZ f (map g l) = sumZ (fun x => f (g x)) l.
Proof.
  induction l as [|x l IH]; [reflexivity|].
  cbn [map]. rewrite !sumZ_cons, IH. reflexivity.
Qed.

(** Restricting a sum over an interval by an upper or a lower bound. *)
Lemma sumZ_range_below lo hi m (f : Z -> Z) :
  lo <= m <= hi ->
  sumZ (fun x => if x <? m then f x else 0) (range lo hi) =
  sumZ f (range lo m).
Proof.
  intros H. rewrite (range_app lo m hi), sumZ_app by lia.
  rewrite (sumZ_zero _ (range m hi)).
  - rewrite Z.add_0_r. apply sumZ_ext. intros x Hx.
    apply In_range in Hx. destruct (Z.ltb_spec x m); [reflexivity|lia].
  - intros x Hx. apply In_range in Hx.
    destruct (Z.ltb_spec x m); [lia|reflexivity].
Qed.

Lemma sumZ_range_above lo hi m (f : Z -> Z) :
  lo <= m + 1 <= hi ->
  sumZ (fun x => if m <? x then f x else 0) (range lo hi) =
  sumZ f (range (m + 1) hi).
Proof.
  intros H. rewrite (range_app lo (m + 1) hi), sumZ_app by lia.
  rewrite (sumZ_zero _ (range lo (m + 1))).
  - rewrite Z.add_0_l. apply sumZ_ext. intros x Hx.
    apply In_range in Hx. destruct (Z.ltb_spec m x); [reflexivity|lia].
  - intros x Hx. apply In_range in Hx.
    destruct (Z.ltb_spec m x); [lia|reflexivity].
Qed.

(** A sum that picks out one point of an interval. *)
Lemma sumZ_point lo hi p (f : Z -> Z) :
  lo <= p < hi ->
  sumZ (fun x => if x =? p then f x else 0) (range lo hi) = f p.
Proof.
  intros H.
  rewrite (range_app lo p hi), (range_cons p hi), sumZ_app, sumZ_cons by lia.
  rewrite Z.eqb_refl.
  rewrite (sumZ_zero _ (range lo p)), (sumZ_zero _ (range (p + 1) hi)).
  - lia.
  - intros x Hx. apply In_range in Hx.
    destruct (Z.eqb_spec x p); [lia|reflexivity].
  - intros x Hx. apply In_range in Hx.
    destruct (Z.eqb_spec x p); [lia|reflexivity].
Qed.

Lemma length_filter_sum {A} (p : A -> bool) l :
  Z.of_nat (length (filter p l)) = sumZ (fun x => ind (p x)) l.
Proof.
  induction l as [|x l IH]; [reflexivity|].
  cbn [filter]. rewrite sumZ_cons, <- IH.
  destruct (p x); cbn [ind length]; lia.
Qed.

Lemma filter_flat_map {A B} (p : B -> bool) (f : A -> list B) l :
  filter p (flat_map f l) = flat_map (fun x => filter p (f x)) l.
Proof.
  induction l as [|x l IH]; [reflexivity|].
  cbn [flat_map]. rewrite filter_app, IH. reflexivity.
Qed.

Lemma length_flat_map_sum {A B} (f : A -> list B) l :
  Z.of_nat (length (flat_map f l)) = sumZ (fun x => Z.of_nat (length (f x))) l.
Proof.
  induction l as [|x l IH]; [reflexivity|].
  cbn [flat_map]. rewrite length_app, sumZ_cons, <- IH. lia.
Qed.

(* ===================================================================== *)
(** ** Weighted subset sums *)
(* ===================================================================== *)

Lemma wsub_ext w w' lo len k off :
  (forall x, w x = w' x) ->
  wsub w lo len k off = wsub w' lo len k off.
Proof.
  intros H. revert k off.
  induction len as [|len IH]; intros k off; cbn [wsub].
  - destruct k; [apply H|reflexivity].
  - rewrite IH. destruct k as [|k]; [reflexivity|]. now rewrite IH.
Qed.

Lemma wsub_offset w lo len k off c :
  wsub w lo len k (off + c) = wsub (fun x => w (x + c)) lo len k off.
Proof.
  revert k off. induction len as [|len IH]; intros k off; cbn [wsub].
  - reflexivity.
  - rewrite IH. destruct k as [|k]; [reflexivity|]. f_equal.
    replace (off + c + (lo + Z.of_nat (S len)))
      with (off + (lo + Z.of_nat (S len)) + c) by lia.
    apply IH.
Qed.

Lemma wsub_linear (a b : Z) u v lo len k off :
  wsub (fun x => a * u x + b * v x) lo len k off =
  a * wsub u lo len k off + b * wsub v lo len k off.
Proof.
  revert k off. induction len as [|len IH]; intros k off; cbn [wsub].
  - destruct k; lia.
  - rewrite IH. destruct k as [|k]; [lia|]. rewrite IH. lia.
Qed.

Lemma wsub_scale (a : Z) u lo len k off :
  wsub (fun x => a * u x) lo len k off = a * wsub u lo len k off.
Proof.
  rewrite (wsub_ext _ (fun x => a * u x + 0 * u x)) by (intros; lia).
  rewrite wsub_linear. lia.
Qed.

Lemma wsub_plus u v lo len k off :
  wsub (fun x => u x + v x) lo len k off =
  wsub u lo len k off + wsub v lo len k off.
Proof.
  rewrite (wsub_ext _ (fun x => 1 * u x + 1 * v x)) by (intros; lia).
  rewrite wsub_linear. lia.
Qed.

Lemma wsub_none w lo len off : wsub w lo len 0 off = w off.
Proof.
  induction len as [|len IH]; cbn [wsub]; [reflexivity|]. rewrite IH. lia.
Qed.

(** Moving the whole interval up by one adds [k] to every subset sum. *)
Lemma wsub_shift w lo len k off :
  wsub w (lo + 1) len k off =
  wsub (fun x => w (x + Z.of_nat k)) lo len k off.
Proof.
  revert k off w. induction len as [|len IH]; intros k off w; cbn [wsub].
  - destruct k; [|reflexivity]. f_equal. lia.
  - rewrite IH. destruct k as [|k]; [reflexivity|]. f_equal.
    rewrite IH.
    replace (off + (lo + 1 + Z.of_nat (S len)))
      with (off + (lo + Z.of_nat (S len)) + 1) by lia.
    rewrite (wsub_offset _ lo len k _ 1).
    apply wsub_ext. intros x. f_equal. lia.
Qed.

(** Deciding on the smallest candidate instead of the largest one. *)
Lemma wsub_peel_lo w lo len k off :
  wsub w lo (S len) k off =
  wsub w (lo + 1) len k off +
  match k with
  | O => 0
  | S k' => wsub w (lo + 1) len k' (off + (lo + 1))
  end.
Proof.
  revert k off. induction len as [|len IH]; intros k off.
  - cbn [wsub]. destruct k as [|k]; [reflexivity|].
    destruct k; do 2 f_equal; lia.
  - change (wsub w lo (S (S len)) k off)
      with (wsub w lo (S len) k off +
            match k with
            | O => 0
            | S k' => wsub w lo (S len) k' (off + (lo + Z.of_nat (S (S len))))
            end).
    rewrite IH. destruct k as [|k].
    + cbn [wsub]. lia.
    + rewrite IH.
      change (wsub w (lo + 1) (S len) (S k) off)
        with (wsub w (lo + 1) len (S k) off +
              wsub w (lo + 1) len k (off + (lo + 1 + Z.of_nat (S len)))).
      replace (off + (lo + 1 + Z.of_nat (S len)))
        with (off + (lo + Z.of_nat (S (S len)))) by lia.
      destruct k as [|k].
      * cbn [wsub]. lia.
      * change (wsub w (lo + 1) (S len) (S k) (off + (lo + 1)))
          with (wsub w (lo + 1) len (S k) (off + (lo + 1)) +
                wsub w (lo + 1) len k
                  (off + (lo + 1) + (lo + 1 + Z.of_nat (S len)))).
        replace (off + (lo + 1) + (lo + 1 + Z.of_nat (S len)))
          with (off + (lo + Z.of_nat (S (S len))) + (lo + 1)) by lia.
        lia.
Qed.

(** Splitting by the largest element of the subset. *)
Lemma wsub_unroll w lo len k off :
  wsub w lo len (S k) off =
  sumZ (fun x => wsub w lo (Z.to_nat (x - lo - 1)) k (off + x))
       (range (lo + 1) (lo + Z.of_nat len + 1)).
Proof.
  induction len as [|len IH].
  - rewrite range_nil by lia. reflexivity.
  - replace (lo + Z.of_nat (S len) + 1) with (lo + Z.of_nat len + 1 + 1)
      by lia.
    rewrite range_snoc, sumZ_app, <- IH by lia.
    cbn [wsub sumZ fold_right].
    replace (Z.to_nat (lo + Z.of_nat len + 1 - lo - 1)) with len by lia.
    replace (off + (lo + Z.of_nat len + 1))
      with (off + (lo + Z.of_nat (S len))) by lia.
    lia.
Qed.

Lemma wsub_periodic w n lo len k off :
  (forall x, w (x + n) = w x) ->
  wsub w lo len k (off + n) = wsub w lo len k off.
Proof.
  intros H. rewrite wsub_offset. now apply wsub_ext.
Qed.

(** Rotation: when the weight has period [len], adding one to every
    element of a subset of the [len] candidates (and wrapping the largest
    one around) is a bijection on subsets that adds [k] to the sum modulo
    the period. *)
Lemma wsub_rotate w len k :
  (forall x, w (x + Z.of_nat len) = w x) ->
  wsub (fun x => w (x + Z.of_nat k)) 0 len k 0 = wsub w 0 len k 0.
Proof.
  intros H. rewrite <- (wsub_shift w 0 len k 0).
  destruct len as [|len]; [reflexivity|].
  rewrite (wsub_peel_lo w 0 len k 0). cbn [wsub]. f_equal.
  destruct k as [|k]; [reflexivity|].
  replace (0 + (0 + 1 + Z.of_nat (S len))) with (0 + (0 + 1) + Z.of_nat (S len))
    by lia.
  now apply wsub_periodic.
Qed.

(** Reflection x |-> c - x of the candidates. *)
Lemma wsub_reflect w lo lo' len k off c :
  lo + lo' + Z.of_nat len + 1 = c ->
  wsub w lo len k off =
  wsub (fun s => w (off + Z.of_nat k * c - s)) lo' len k 0.
Proof.
  revert w lo lo' k off.
  induction len as [|len IH]; intros w lo lo' k off Hc.
  - cbn [wsub]. destruct k; [|reflexivity]. f_equal. lia.
  - rewrite (wsub_peel_lo _ lo' len k 0). cbn [wsub].
    rewrite (IH w lo (lo' + 1) k off) by lia. f_equal.
    destruct k as [|k]; [reflexivity|].
    rewrite (IH w lo (lo' + 1) k _) by lia.
    rewrite (wsub_offset _ (lo' + 1) len k 0 (lo' + 1)).
    apply wsub_ext. intros x. f_equal. lia.
Qed.

(* ===================================================================== *)
(** ** From lists of quadruples to weighted subset sums *)
(* ===================================================================== *)

Lemma sum4_ext R f g :
  (forall a b c d, In a R -> In b R -> In c R -> In d R ->
     f a b c d = g a b c d) ->
  sum4 R f = sum4 R g.
Proof.
  intros H. unfold sum4.
  apply sumZ_ext; intros a Ha. apply sumZ_ext; intros b Hb.
  apply sumZ_ext; intros c Hc. apply sumZ_ext; intros d Hd.
  now apply H.
Qed.

Lemma sum4_rev R f : sum4 R f = sum4 R (fun d c b a => f a b c d).
Proof.
  unfold sum4.
  (* a b c d -> a b d c *)
  erewrite sumZ_ext with (l := R).
  2:{ intros a _. erewrite sumZ_ext with (l := R).
      2:{ intros b _. apply sumZ_swap. }
      apply sumZ_swap. }
  (* a d b c -> d a b c *)
  rewrite sumZ_swap.
  apply sumZ_ext; intros d _.
  (* a b c -> a c b -> c a b *)
  erewrite sumZ_ext with (l := R).
  2:{ intros a _. apply sumZ_swap. }
  rewrite sumZ_swap.
  apply sumZ_ext; intros c _.
  apply sumZ_swap.
Qed.

Lemma length_filter_tuples4 (p : Z * Z * Z * Z -> bool) R :
  Z.of_nat (length (filter p (tuples4 R))) =
  sum4 R (fun a b c d => ind (p (a, b, c, d))).
Proof.
  unfold tuples4, sum4.
  rewrite filter_flat_map, length_flat_map_sum.
  apply sumZ_ext; intros a _.
  rewrite filter_flat_map, length_flat_map_sum.
  apply sumZ_ext; intros b _.
  rewrite filter_flat_map, length_flat_map_sum.
  apply sumZ_ext; intros c _.
  rewrite length_filter_sum, sumZ_map. reflexivity.
Qed.

Lemma filter_filter {A} (p q : A -> bool) l :
  filter p (filter q l) = filter (fun x => q x && p x) l.
Proof.
  induction l as [|x l IH]; [reflexivity|].
  cbn [filter]. destruct (q x); cbn [filter andb]; rewrite IH; reflexivity.
Qed.

(** The number of quadruples whose sum satisfies [p], as a four-fold sum. *)
Lemma count_quadruples_sum4 (p : Z -> bool) M :
  Z.of_nat (length (filter (fun q => p (quad_sum q)) (all_quadruples M))) =
  sum4 (range 1 (M + 1))
       (fun a b c d => ind (increasing (a, b, c, d)) * ind (p (a + b + c + d))).
Proof.
  unfold all_quadruples. rewrite filter_filter, length_filter_tuples4.
  apply sum4_ext. intros a b c d _ _ _ _. cbn [quad_sum].
  destruct (increasing (a, b, c, d)), (p (a + b + c + d)); reflexivity.
Qed.

Lemma wsub_unroll_guard w M k off top :
  1 <= top <= M + 1 ->
  wsub w 0 (Z.to_nat (top - 1)) (S k) off =
  sumZ (fun x => if x <? top
                 then wsub w 0 (Z.to_nat (x - 1)) k (off + x) else 0)
       (range 1 (M + 1)).
Proof.
  intros H. rewrite (sumZ_range_below 1 (M + 1) top) by lia.
  rewrite wsub_unroll.
  replace (0 + Z.of_nat (Z.to_nat (top - 1)) + 1) with top by lia.
  apply sumZ_ext. intros x _. do 2 f_equal. lia.
Qed.

Lemma sum4_wsub w M :
  sum4 (range 1 (M + 1))
       (fun a b c d => ind (increasing (a, b, c, d)) * w (a + b + c + d)) =
  wsub w 0 (Z.to_nat M) 4 0.
Proof.
  destruct (Z_lt_le_dec M 0) as [HM|HM].
  { rewrite range_nil by lia.
    replace (Z.to_nat M) with 0%nat by lia. reflexivity. }
  rewrite sum4_rev. unfold sum4.
  replace (Z.to_nat M) with (Z.to_nat (M + 1 - 1)) by lia.
  rewrite (wsub_unroll_guard w M 3 0 (M + 1)) by lia.
  apply sumZ_ext; intros d Hd. apply In_range in Hd.
  destruct (Z.ltb_spec d (M + 1)) as [_|]; [|lia].
  rewrite (wsub_unroll_guard w M 2 (0 + d) d) by lia.
  apply sumZ_ext; intros c Hc. apply In_range in Hc.
  destruct (Z.ltb_spec c d) as [Hcd|Hcd].
  2:{ apply sumZ_zero; intros b _. apply sumZ_zero; intros a _.
      cbn [increasing]. destruct (Z.ltb_spec c d); [lia|].
      now rewrite !andb_false_r. }
  rewrite (wsub_unroll_guard w M 1 (0 + d + c) c) by lia.
  apply sumZ_ext; intros b Hb. apply In_range in Hb.
  destruct (Z.ltb_spec b c) as [Hbc|Hbc].
  2:{ apply sumZ_zero; intros a _.
      cbn [increasing]. destruct (Z.ltb_spec b c); [lia|].
      now rewrite andb_false_r. }
  rewrite (wsub_unroll_guard w M 0 (0 + d + c + b) b) by lia.
  apply sumZ_ext; intros a Ha. apply In_range in Ha.
  cbn [increasing]. rewrite wsub_none.
  destruct (Z.ltb_spec a b), (Z.ltb_spec b c), (Z.ltb_spec c d);
    cbn [andb ind]; try lia.
  rewrite Z.mul_1_l. f_equal. lia.
Qed.

(** The hub of the development: counting quadruples by a property of the
    sum is a weighted subset sum. *)
Lemma count_quadruples_wsub (p : Z -> bool) M :
  Z.of_nat (length (filter (fun q => p (quad_sum q)) (all_quadruples M))) =
  wsub (fun s => ind (p s)) 0 (Z.to_nat M) 4 0.
Proof.
  rewrite count_quadruples_sum4.
  exact (sum4_wsub (fun s => ind (p s)) M).
Qed.

Lemma quadruple_count_wsub N M :
  quadruple_count N M = subset_count (Z.to_nat M) 4 N.
Proof.
  unfold quadruple_count, quadruples, subset_count.
  exact (count_quadruples_wsub (fun s => s =? N) M).
Qed.

Lemma divisible_count_wsub n :
  divisible_count n = wsub (fun s => ind (divides n s)) 0 (Z.to_nat n) 4 0.
Proof.
  unfold divisible_count, divisible_quadruples.
  exact (count_quadruples_wsub (divides n) n).
Qed.

(* ===================================================================== *)
(** ** The specification lists enumerate each quadruple exactly once *)
(* ===================================================================== *)

Lemma NoDup_range lo hi : NoDup (range lo hi).
Proof.
  unfold range. apply NoDup_map_NoDup_ForallPairs; [|apply seq_NoDup].
  intros i j _ _ H. lia.
Qed.

Lemma NoDup_flat_map_key {A B} (f : A -> list B) (key : B -> A) l :
  NoDup l ->
  (forall x, NoDup (f x)) ->
  (forall x y, In y (f x) -> key y = x) ->
  NoDup (flat_map f l).
Proof.
  intros Hl Hf Hk. induction Hl as [|x l Hx Hl IH]; cbn [flat_map].
  - constructor.
  - apply NoDup_app; [apply Hf|apply IH|].
    intros y Hy Hy'. apply in_flat_map in Hy' as (x' & Hx' & Hy').
    apply Hk in Hy, Hy'. congruence.
Qed.

Lemma In_tuples4 R a b c d :
  In (a, b, c, d) (tuples4 R) <-> In a R /\ In b R /\ In c R /\ In d R.
Proof.
  unfold tuples4. rewrite in_flat_map. split.
  - intros (a' & Ha & H). apply in_flat_map in H as (b' & Hb & H).
    apply in_flat_map in H as (c' & Hc & H).
    apply in_map_iff in H as (d' & E & Hd). inversion E; subst. tauto.
  - intros (Ha & Hb & Hc & Hd). exists a. split; [assumption|].
    apply in_flat_map. exists b. split; [assumption|].
    apply in_flat_map. exists c. split; [assumption|].
    apply in_map_iff. now exists d.
Qed.

Lemma NoDup_tuples4 R : NoDup R -> NoDup (tuples4 R).
Proof.
  intros HR. unfold tuples4.
  apply (NoDup_flat_map_key _ (fun q => fst (fst (fst q)))); [assumption| |].
  - intros a.
    apply (NoDup_flat_map_key _ (fun q => snd (fst (fst q)))); [assumption| |].
    + intros b.
      apply (NoDup_flat_map_key _ (fun q => snd (fst q))); [assumption| |].
      * intros c. apply NoDup_map_NoDup_ForallPairs; [|assumption].
        intros d d' _ _ E. congruence.
      * intros c q H. apply in_map_iff in H as (d & <- & _). reflexivity.
    + intros b q H. apply in_flat_map in H as (c & _ & H).
      apply in_map_iff in H as (d & <- & _). reflexivity.
  - intros a q H. apply in_flat_map in H as (b & _ & H).
    apply in_flat_map in H as (c & _ & H).
    apply in_map_iff in H as (d & <- & _). reflexivity.
Qed.

Lemma In_all_quadruples M a b c d :
  In (a, b, c, d) (all_quadruples M) <-> 1 <= a < b /\ b < c < d /\ d <= M.
Proof.
  unfold all_quadruples. rewrite filter_In, In_tuples4, !In_range.
  cbn [increasing]. rewrite !andb_true_iff, !Z.ltb_lt. lia.
Qed.

Lemma NoDup_all_quadruples M : NoDup (all_quadruples M).
Proof.
  unfold all_quadruples. apply NoDup_filter, NoDup_tuples4, NoDup_range.
Qed.

Lemma In_quadruples N M a b c d :
  In (a, b, c, d) (quadruples N M) <->
  1 <= a < b /\ b < c < d /\ d <= M /\ a + b + c + d = N.
Proof.
  unfold quadruples. rewrite filter_In, In_all_quadruples.
  cbn [quad_sum]. rewrite Z.eqb_eq. tauto.
Qed.

Lemma NoDup_quadruples N M : NoDup (quadruples N M).
Proof. unfold quadruples. apply NoDup_filter, NoDup_all_quadruples. Qed.

Lemma divides_spec n s : divides n s = true <-> (n | s).
Proof.
  unfold divides. rewrite Z.eqb_eq.
  destruct (Z.eq_dec n 0) as [->|Hn].
  - rewrite Z.mod_0_r. split.
    + intros ->. apply Z.divide_0_r.
    + intros [k ->]. lia.
  - now apply Z.mod_divide.
Qed.

Lemma In_divisible_quadruples n a b c d :
  In (a, b, c, d) (divisible_quadruples n) <->
  1 <= a < b /\ b < c < d /\ d <= n /\ (n | a + b + c + d).
Proof.
  unfold divisible_quadruples. rewrite filter_In, In_all_quadruples.
  cbn [quad_sum]. rewrite divides_spec. tauto.
Qed.

Lemma NoDup_divisible_quadruples n : NoDup (divisible_quadruples n).
Proof.
  unfold divisible_quadruples. apply NoDup_filter, NoDup_all_quadruples.
Qed.

(* ===================================================================== *)
(** ** Lists as arrays, and loops *)
(* ===================================================================== *)

Lemma index_of_in_range len i :
  0 <= i < len -> index_of len i = Ret (Z.to_nat i).
Proof.
  intros H. unfold index_of.
  destruct (Z.leb_spec 0 i); [|lia]. destruct (Z.ltb_spec i len); [|lia].
  reflexivity.
Qed.

Lemma getitem_nth {A} (l : list A) i d :
  0 <= i < Z.of_nat (length l) -> getitem l i = Ret (nth (Z.to_nat i) l d).
Proof.
  intros H. unfold getitem. rewrite index_of_in_range by assumption.
  cbn [bind]. rewrite (nth_error_nth' l d) by lia. reflexivity.
Qed.

Lemma setitem_update {A} (l : list A) i x :
  0 <= i < Z.of_nat (length l) ->
  setitem l i x = Ret (update l (Z.to_nat i) x).
Proof.
  intros H. unfold setitem. rewrite index_of_in_range by assumption.
  reflexivity.
Qed.

Lemma length_update {A} (l : list A) n x : length (update l n x) = length l.
Proof.
  revert n. induction l as [|h t IH]; intros n; [reflexivity|].
  destruct n; cbn [update length]; [reflexivity|]. now rewrite IH.
Qed.

Lemma nth_update {A} (l : list A) m n x d :
  (m < length l)%nat ->
  nth n (update l m x) d = if (n =? m)%nat then x else nth n l d.
Proof.
  revert m n. induction l as [|h t IH]; intros m n Hm; [cbn in Hm; lia|].
  destruct m, n; cbn [update nth Nat.eqb]; try reflexivity.
  apply IH. cbn in Hm. lia.
Qed.

Lemma nth_repeat_any {A} (x : A) n i : nth i (repeat x n) x = x.
Proof.
  revert i. induction n as [|n IH]; intros [|i]; cbn; auto.
Qed.

(** Invariant rule for [for i in range(hi, lo, -1)]: [I i] holds when the
    iterations above [i] are done. *)
Lemma for_each_range_down {S} (I : Z -> S -> Prop) hi lo body s0 :
  I hi s0 ->
  (forall i s, lo < i <= hi -> I i s ->
     exists s', body i s = Ret s' /\ I (i - 1) s') ->
  exists s', for_each (range_down hi lo) body s0 = Ret s' /\
             I (Z.min hi lo) s'.
Proof.
  intros H0 Hstep.
  destruct (Z_le_gt_dec hi lo) as [Hle|Hgt].
  { rewrite range_down_nil by lia. exists s0.
    replace (Z.min hi lo) with hi by lia. now split. }
  replace (Z.min hi lo) with lo by lia.
  remember (Z.to_nat (hi - lo)) as n eqn:En.
  revert hi s0 H0 Hstep Hgt En.
  induction n as [|n IH]; intros hi s0 H0 Hstep Hgt En; [lia|].
  rewrite range_down_cons by lia. cbn [for_each].
  destruct (Hstep hi s0) as (s1 & E1 & H1); [lia|assumption|].
  rewrite E1. cbn [bind].
  destruct (Z.eq_dec (hi - 1) lo) as [E|E].
  - rewrite range_down_nil by lia. exists s1. rewrite <- E. now split.
  - apply IH; [assumption| |lia|lia].
    intros i s Hi. apply Hstep. lia.
Qed.

(** Invariant rule for [for i in range(lo, hi)]: [I i] holds when the
    iterations below [i] are done. *)
Lemma for_each_range {S} (I : Z -> S -> Prop) lo hi body s0 :
  I lo s0 ->
  (forall i s, lo <= i < hi -> I i s ->
     exists s', body i s = Ret s' /\ I (i + 1) s') ->
  exists s', for_each (range lo hi) body s0 = Ret s' /\
             I (Z.max lo hi) s'.
Proof.
  intros H0 Hstep.
  destruct (Z_le_gt_dec hi lo) as [Hle|Hgt].
  { rewrite range_nil by lia. exists s0.
    replace (Z.max lo hi) with lo by lia. now split. }
  replace (Z.max lo hi) with hi by lia.
  remember (Z.to_nat (hi - lo)) as n eqn:En.
  revert lo s0 H0 Hstep Hgt En.
  induction n as [|n IH]; intros lo s0 H0 Hstep Hgt En; [lia|].
  rewrite range_cons by lia. cbn [for_each].
  destruct (Hstep lo s0) as (s1 & E1 & H1); [lia|assumption|].
  rewrite E1. cbn [bind].
  destruct (Z.eq_dec (lo + 1) hi) as [E|E].
  - rewrite range_nil by lia. exists s1. rewrite <- E. now split.
  - apply IH; [assumption| |lia|lia].
    intros i s Hi. apply Hstep. lia.
Qed.

(* ===================================================================== *)
(** ** Subset counts: the recurrence behind the dynamic program *)
(* ===================================================================== *)

Lemma subset_count_step v k s :
  subset_count (S v) (S k) s =
  subset_count v (S k) s + subset_count v k (s - Z.of_nat (S v)).
Proof.
  unfold subset_count. cbn [wsub]. f_equal.
  rewrite (wsub_offset _ 0 v k 0 (0 + Z.of_nat (S v))).
  apply wsub_ext. intros x.
  destruct (Z.eqb_spec (x + (0 + Z.of_nat (S v))) s),
           (Z.eqb_spec x (s - Z.of_nat (S v))); (reflexivity || lia).
Qed.

Lemma subset_count_none v s : subset_count v 0 s = ind (0 =? s).
Proof. unfold subset_count. now rewrite wsub_none. Qed.

Lemma wsub_below s lo len k off :
  0 <= lo -> s < off -> wsub (fun x => ind (x =? s)) lo len k off = 0.
Proof.
  intros Hlo. revert k off.
  induction len as [|len IH]; intros k off H; cbn [wsub].
  - destruct k; [|reflexivity]. destruct (Z.eqb_spec off s); [lia|reflexivity].
  - rewrite IH by assumption. destruct k; [reflexivity|].
    rewrite IH by lia. reflexivity.
Qed.

Lemma subset_count_negative v k s : s < 0 -> subset_count v k s = 0.
Proof. intros H. unfold subset_count. apply wsub_below; lia. Qed.

Lemma subset_count_small v k s :
  s < Z.of_nat (S v) -> subset_count (S v) k s = subset_count v k s.
Proof.
  intros H. destruct k as [|k].
  - now rewrite !subset_count_none.
  - rewrite subset_count_step, (subset_count_negative v k) by lia. lia.
Qed.

Lemma subset_count_empty k s :
  subset_count 0 k s = ind ((k =? 0)%nat && (s =? 0)).
Proof.
  unfold subset_count. cbn [wsub]. destruct k; cbn [Nat.eqb andb]; [|reflexivity].
  now rewrite Z.eqb_sym.
Qed.

(* ===================================================================== *)
(** ** src/dp.py: the loop invariants *)
(* ===================================================================== *)

Lemma dp_update_ok N cand j i t :
  table_shape N t -> 1 <= j <= 4 -> 1 <= cand -> cand <= i <= N ->
  exists t',
    dp_update cand j i t = Ret t' /\ table_shape N t' /\
    forall k s, (k < 5)%nat -> 0 <= s <= N ->
      cell t' k s =
      if (Z.of_nat k =? j) && (s =? i)
      then cell t (Z.to_nat j) i + cell t (Z.to_nat (j - 1)) (i - cand)
      else cell t k s.
Proof.
  intros [Hlen Hrows] Hj Hc Hi. unfold dp_update.
  rewrite (getitem_nth t j []) by lia. cbn [bind].
  assert (Hrj : length (nth (Z.to_nat j) t []) = Z.to_nat (N + 1))
    by (apply Hrows; lia).
  assert (Hrp : length (nth (Z.to_nat (j - 1)) t []) = Z.to_nat (N + 1))
    by (apply Hrows; lia).
  rewrite (getitem_nth (nth (Z.to_nat j) t []) i 0) by lia. cbn [bind].
  rewrite (getitem_nth t (j - 1) []) by lia. cbn [bind].
  rewrite (getitem_nth (nth (Z.to_nat (j - 1)) t []) (i - cand) 0) by lia.
  cbn [bind].
  rewrite setitem_update by lia. cbn [bind].
  rewrite setitem_update by lia.
  eexists. split; [reflexivity|]. split.
  - split; [now rewrite length_update|].
    intros k Hk. rewrite nth_update by lia.
    destruct (Nat.eqb_spec k (Z.to_nat j)) as [->|_].
    + now rewrite length_update.
    + now apply Hrows.
  - intros k s Hk Hs. unfold cell at 1.
    rewrite nth_update by lia.
    destruct (Nat.eqb_spec k (Z.to_nat j)) as [->|Hne].
    + rewrite nth_update by lia.
      destruct (Z.eqb_spec (Z.of_nat (Z.to_nat j)) j) as [_|]; [|lia].
      cbn [andb].
      destruct (Nat.eqb_spec (Z.to_nat s) (Z.to_nat i)),
               (Z.eqb_spec s i); try lia; reflexivity.
    + destruct (Z.eqb_spec (Z.of_nat k) j); [lia|]. reflexivity.
Qed.

Lemma dp_inner_loop N c cand j t :
  10 <= N -> 1 <= j <= 4 -> cand = Z.of_nat (S c) ->
  dp_inv N c j N t ->
  exists t',
    for_each (range_down N (cand - 1))
      (fun current_sum count_table =>
         dp_update cand j current_sum count_table) t = Ret t' /\
    dp_inv N c (j - 1) N t'.
Proof.
  intros HN Hj -> Hinv.
  destruct (for_each_range_down (fun i t => dp_inv N c j i t)
              N (Z.of_nat (S c) - 1)
              (fun current_sum count_table =>
                 dp_update (Z.of_nat (S c)) j current_sum count_table) t)
    as (t' & E & [Hshape Hcells]); [assumption| |].
  - intros i t1 Hi [Hshape Hcells].
    destruct (dp_update_ok N (Z.of_nat (S c)) j i t1)
      as (t2 & E2 & Hshape2 & Hcells2); [assumption|lia|lia|lia|].
    exists t2. split; [assumption|]. split; [assumption|].
    intros k s Hk Hs. rewrite Hcells2 by assumption.
    destruct (Z.eqb_spec (Z.of_nat k) j) as [Ek|Ek]; cbn [andb].
    + destruct (Z.eqb_spec s i) as [->|Es].
      * rewrite !Hcells by lia.
        destruct (Z.ltb_spec j (Z.of_nat (Z.to_nat j))); [lia|].
        destruct (Z.ltb_spec i i); [lia|].
        destruct (Z.ltb_spec j (Z.of_nat (Z.to_nat (j - 1)))); [lia|].
        destruct (Z.eqb_spec (Z.of_nat (Z.to_nat (j - 1))) j); [lia|].
        rewrite andb_false_r. cbn [orb andb].
        destruct (Z.ltb_spec j (Z.of_nat k)); [lia|].
        destruct (Z.ltb_spec (i - 1) i); [|lia]. cbn [orb].
        replace k with (S (Z.to_nat (j - 1))) by lia.
        rewrite subset_count_step.
        replace (Z.to_nat j) with (S (Z.to_nat (j - 1))) by lia.
        reflexivity.
      * rewrite Hcells by assumption.
        destruct (Z.eqb_spec (Z.of_nat k) j); [|lia]. cbn [andb].
        destruct (Z.ltb_spec i s), (Z.ltb_spec (i - 1) s);
          try lia; reflexivity.
    + rewrite Hcells by assumption.
      destruct (Z.eqb_spec (Z.of_nat k) j); [lia|]. reflexivity.
  - exists t'. split; [assumption|]. split; [assumption|].
    intros k s Hk Hs. rewrite Hcells by assumption.
    destruct (Z.ltb_spec j (Z.of_nat k)), (Z.ltb_spec (j - 1) (Z.of_nat k));
      try lia; cbn [orb].
    + reflexivity.
    + destruct (Z.eqb_spec (Z.of_nat k) j); [|lia]. cbn [andb].
      destruct (Z.ltb_spec (Z.min N (Z.of_nat (S c) - 1)) s);
        [reflexivity|].
      symmetry. apply subset_count_small. lia.
    + destruct (Z.eqb_spec (Z.of_nat k) j); [lia|]. cbn [andb].
      destruct (Z.ltb_spec N s); [lia|]. now rewrite andb_false_r.
Qed.

Lemma dp_middle_loop N c cand t :
  10 <= N -> cand = Z.of_nat (S c) ->
  dp_inv N c 4 N t ->
  exists t',
    for_each (range_down 4 0)
      (fun numbers_selected count_table =>
         for_each (range_down N (cand - 1))
           (fun current_sum count_table =>
              dp_update cand numbers_selected current_sum
                count_table) count_table) t = Ret t' /\
    dp_inv N (S c) 4 N t'.
Proof.
  intros HN -> Hinv.
  destruct (for_each_range_down (fun j t => dp_inv N c j N t) 4 0
              (fun numbers_selected count_table =>
                 for_each (range_down N (Z.of_nat (S c) - 1))
                   (fun current_sum count_table =>
                      dp_update (Z.of_nat (S c)) numbers_selected current_sum
                        count_table) count_table) t)
    as (t' & E & [Hshape Hcells]); [assumption| |].
  - intros j t1 Hj H1. apply dp_inner_loop; (assumption || lia || reflexivity).
  - exists t'. split; [assumption|]. split; [assumption|].
    intros k s Hk Hs. rewrite Hcells by assumption.
    change (Z.min 4 0) with 0.
    destruct (Z.ltb_spec 4 (Z.of_nat k)); [lia|].
    destruct (Z.ltb_spec N s); [lia|].
    rewrite !andb_false_r, !orb_false_r.
    destruct (Z.ltb_spec 0 (Z.of_nat k)); [reflexivity|].
    replace k with 0%nat by lia. now rewrite !subset_count_none.
Qed.

Lemma dp_initial_table N :
  10 <= N ->
  dp_inv N 0 4 N
    (update (map (fun _ : Z => repeat 0 (Z.to_nat (N + 1))) (range 0 5)) 0
       (update (repeat 0 (Z.to_nat (N + 1))) 0 1)).
Proof.
  intros HN. change (range 0 5) with [0; 1; 2; 3; 4]. cbn [map update].
  split.
  - split; [reflexivity|]. intros k Hk.
    destruct k as [|[|[|[|[|k]]]]]; cbn [nth];
      rewrite ?length_update, ?repeat_length; (reflexivity || lia).
  - intros k s Hk Hs.
    destruct (Z.ltb_spec 4 (Z.of_nat k)); [lia|].
    destruct (Z.ltb_spec N s); [lia|].
    rewrite andb_false_r. cbn [orb]. rewrite subset_count_empty.
    unfold cell.
    destruct k as [|[|[|[|[|k]]]]]; cbn [nth Nat.eqb andb ind];
      [|apply nth_repeat_any..|lia].
    rewrite nth_update by (rewrite repeat_length; lia).
    destruct (Nat.eqb_spec (Z.to_nat s) 0), (Z.eqb_spec s 0); try lia;
      [reflexivity|apply nth_repeat_any].
Qed.

Lemma dp_outer_loop N M t :
  10 <= N ->
  dp_inv N 0 4 N t ->
  exists t',
    for_each (range 1 (M + 1))
      (fun candidate count_table =>
         for_each (range_down 4 0)
           (fun numbers_selected count_table =>
              for_each (range_down N (candidate - 1))
                (fun current_sum count_table =>
                   dp_update candidate numbers_selected current_sum
                     count_table) count_table) count_table) t = Ret t' /\
    dp_inv N (Z.to_nat M) 4 N t'.
Proof.
  intros HN H0.
  destruct (for_each_range
              (fun i t => dp_inv N (Z.to_nat (i - 1)) 4 N t) 1 (M + 1)
              (fun candidate count_table =>
                 for_each (range_down 4 0)
                   (fun numbers_selected count_table =>
                      for_each (range_down N (candidate - 1))
                        (fun current_sum count_table =>
                           dp_update candidate numbers_selected current_sum
                             count_table) count_table) count_table) t)
    as (t' & E & Hinv); [exact H0| |].
  - intros i t1 Hi H1.
    replace (Z.to_nat (i + 1 - 1)) with (S (Z.to_nat (i - 1))) by lia.
    apply dp_middle_loop; (assumption || lia).
  - exists t'. split; [assumption|].
    destruct (Z_le_gt_dec M 0).
    + replace (Z.to_nat M) with (Z.to_nat (Z.max 1 (M + 1) - 1)) by lia.
      assumption.
    + replace (Z.to_nat M) with (Z.to_nat (Z.max 1 (M + 1) - 1)) by lia.
      assumption.
Qed.

Lemma quadruples_out_of_range N M :
  N < 10 \/ N > 4 * M - 6 -> quadruple_count N M = 0.
Proof.
  intros H. unfold quadruple_count.
  destruct (quadruples N M) as [|[[[a b] c] d] l] eqn:E; [reflexivity|].
  assert (Hin : In (a, b, c, d) (quadruples N M)) by (rewrite E; now left).
  apply In_quadruples in Hin. lia.
Qed.

(** The dynamic program returns the number of quadruples, on every input. *)
Lemma count_quadruples_correct N M show_progress progress_position
  progress_desc :
  count_quadruples N M show_progress progress_position progress_desc =
  Ret (quadruple_count N M).
Proof.
  unfold count_quadruples.
  destruct (Z.ltb_spec N 10) as [H1|H1]; cbn [orb].
  { rewrite quadruples_out_of_range by lia. reflexivity. }
  destruct (Z.gtb_spec N (4 * M - 6)) as [H2|H2].
  { rewrite quadruples_out_of_range by lia. reflexivity. }
  change (range 0 5) with [0; 1; 2; 3; 4]. cbn [map].
  rewrite (getitem_nth _ 0 []) by (cbn [length]; lia).
  cbn [Z.to_nat nth bind].
  rewrite setitem_update by (rewrite repeat_length; lia).
  cbn [Z.to_nat bind].
  rewrite setitem_update by (cbn [length]; lia).
  cbn [Z.to_nat bind].
  replace (if show_progress then _ else _) with (range 1 (M + 1))
    by (destruct show_progress; reflexivity).
  destruct (dp_outer_loop N M _ H1 (dp_initial_table N H1))
    as (t' & E & [[Hlen Hrows] Hcells]).
  change (range 0 5) with [0; 1; 2; 3; 4] in E. cbn [map update] in E.
  cbn [update]. rewrite E. cbn [bind].
  rewrite (getitem_nth t' 4 []) by lia. cbn [bind].
  rewrite (getitem_nth _ N 0) by (rewrite Hrows; lia).
  f_equal. rewrite quadruple_count_wsub.
  specialize (Hcells 4%nat N ltac:(lia) ltac:(lia)).
  destruct (Z.ltb_spec N N); [lia|].
  rewrite andb_false_r in Hcells. cbn in Hcells. exact Hcells.
Qed.

(* ===================================================================== *)
(** ** src/pair_sum.py: the loop invariants *)
(* ===================================================================== *)

Lemma pairs_above_out_of_range M b t :
  0 <= b -> t < 0 \/ 2 * M < t -> pairs_above M b t = 0.
Proof.
  intros Hb Ht. unfold pairs_above.
  apply sumZ_zero; intros c Hc. apply In_range in Hc.
  apply sumZ_zero; intros d Hd. apply In_range in Hd.
  destruct (Z.eqb_spec (c + d) t); [lia|reflexivity].
Qed.

Lemma pairs_above_step M b t :
  b + 1 < M ->
  pairs_above M b t =
  pairs_above M (b + 1) t +
  sumZ (fun d => ind (b + 1 + d =? t)) (range (b + 2) (M + 1)).
Proof.
  intros H. unfold pairs_above.
  rewrite (range_cons (b + 1) M), sumZ_cons by lia.
  replace (b + 1 + 1) with (b + 2) by lia. lia.
Qed.

Lemma sweep_total_step N M b :
  b < M - 1 ->
  sweep_total N M b =
  sweep_total N M (b + 1) +
  sumZ (fun a => pairs_above M b (N - b - a)) (range 1 b).
Proof.
  intros H. unfold sweep_total.
  rewrite (range_cons b (M - 1)), sumZ_cons by lia. lia.
Qed.

Lemma register_loop M i pc :
  1 <= i -> i + 1 < M ->
  length pc = Z.to_nat (2 * M + 1) ->
  exists pc',
    for_each (range (i + 1 + 1) (M + 1))
      (fun fourth pair_counts =>
         old <- getitem pair_counts (i + 1 + fourth) ;;
         setitem pair_counts (i + 1 + fourth) (old + 1)) pc = Ret pc' /\
    length pc' = Z.to_nat (2 * M + 1) /\
    forall t, 0 <= t <= 2 * M ->
      nth (Z.to_nat t) pc' 0 =
      nth (Z.to_nat t) pc 0 +
      sumZ (fun d => ind (i + 1 + d =? t)) (range (i + 2) (M + 1)).
Proof.
  intros Hi HM Hlen.
  destruct (for_each_range
              (fun f pc' =>
                 length pc' = Z.to_nat (2 * M + 1) /\
                 forall t, 0 <= t <= 2 * M ->
                   nth (Z.to_nat t) pc' 0 =
                   nth (Z.to_nat t) pc 0 +
                   sumZ (fun d => ind (i + 1 + d =? t)) (range (i + 2) f))
              (i + 1 + 1) (M + 1)
              (fun fourth pair_counts =>
                 old <- getitem pair_counts (i + 1 + fourth) ;;
                 setitem pair_counts (i + 1 + fourth) (old + 1)) pc)
    as (pc' & E & Hlen' & Hcells).
  - split; [assumption|]. intros t Ht.
    rewrite range_nil by lia. cbn [sumZ fold_right]. lia.
  - intros f pc1 Hf [Hlen1 Hcells1].
    rewrite (getitem_nth pc1 _ 0) by lia. cbn [bind].
    rewrite setitem_update by lia.
    eexists. split; [reflexivity|]. split; [now rewrite length_update|].
    intros t Ht. rewrite nth_update by lia.
    rewrite range_snoc, sumZ_app, sumZ_cons, sumZ_nil by lia.
    destruct (Nat.eqb_spec (Z.to_nat t) (Z.to_nat (i + 1 + f))) as [E|E].
    + assert (t = i + 1 + f) as -> by lia.
      rewrite Hcells1 by lia. rewrite Z.eqb_refl. cbn [ind]. lia.
    + rewrite Hcells1 by lia.
      destruct (Z.eqb_spec (i + 1 + f) t); [lia|]. cbn [ind]. lia.
  - exists pc'. split; [assumption|]. split; [assumption|].
    intros t Ht. rewrite Hcells by assumption.
    replace (Z.max (i + 1 + 1) (M + 1)) with (M + 1) by lia. reflexivity.
Qed.

Lemma query_loop N M i pc total :
  1 <= i -> i + 1 < M ->
  length pc = Z.to_nat (2 * M + 1) ->
  (forall t, 0 <= t <= 2 * M -> nth (Z.to_nat t) pc 0 = pairs_above M i t) ->
  for_each (range 1 i)
    (fun first total =>
       if (0 <=? N - i - first) && (N - i - first <=? 2 * M)
       then x <- getitem pc (N - i - first) ;; Ret (total + x)
       else Ret total) total =
  Ret (total + sumZ (fun a => pairs_above M i (N - i - a)) (range 1 i)).
Proof.
  intros Hi HM Hlen Hcells.
  destruct (for_each_range
              (fun a tot =>
                 tot = total +
                       sumZ (fun a' => pairs_above M i (N - i - a'))
                            (range 1 a))
              1 i
              (fun first total =>
                 if (0 <=? N - i - first) && (N - i - first <=? 2 * M)
                 then x <- getitem pc (N - i - first) ;; Ret (total + x)
                 else Ret total) total)
    as (tot & E & Htot).
  - rewrite range_nil by lia. cbn [sumZ fold_right]. lia.
  - intros a tot Ha ->.
    rewrite range_snoc, sumZ_app, sumZ_cons, sumZ_nil by lia.
    destruct (Z.leb_spec 0 (N - i - a)) as [H1|H1]; cbn [andb].
    + destruct (Z.leb_spec (N - i - a) (2 * M)) as [H2|H2].
      * rewrite (getitem_nth pc _ 0) by lia. cbn [bind].
        rewrite Hcells by lia. eexists. split; [reflexivity|]. lia.
      * rewrite pairs_above_out_of_range by lia.
        eexists. split; [reflexivity|]. lia.
    + rewrite pairs_above_out_of_range by lia.
      eexists. split; [reflexivity|]. lia.
  - rewrite E, Htot. replace (Z.max 1 i) with i by lia. reflexivity.
Qed.

Lemma sweep_loop N M :
  4 <= M ->
  exists st,
    for_each (range_down (M - 2) 1)
      (fun second st =>
         let '(pair_counts, total) := st in
         let third := second + 1 in
         pair_counts <-
           for_each (range (third + 1) (M + 1))
             (fun fourth pair_counts =>
                old <- getitem pair_counts (third + fourth) ;;
                setitem pair_counts (third + fourth) (old + 1))
             pair_counts ;;
         let sum_without_first := N - second in
         total <-
           for_each (range 1 second)
             (fun first total =>
                let target := sum_without_first - first in
                if (0 <=? target) && (target <=? 2 * M) then
                  x <- getitem pair_counts target ;;
                  Ret (total + x)
                else Ret total)
             total ;;
         Ret (pair_counts, total))
      (repeat 0 (Z.to_nat (2 * M + 1)), 0) = Ret st /\
    snd st = sweep_total N M 2.
Proof.
  intros HM.
  match goal with
  | |- exists st, for_each _ ?body ?s0 = _ /\ _ =>
      destruct (for_each_range_down (sweep_inv N M) (M - 2) 1 body s0)
        as (st & E & Hinv)
  end.
  - split; [apply repeat_length|]. cbn [fst snd]. split.
    + intros t Ht. rewrite nth_repeat_any. unfold pairs_above.
      rewrite range_nil by lia. reflexivity.
    + unfold sweep_total. rewrite range_nil by lia. reflexivity.
  - intros i [pc total] Hi (Hlen & Hcells & Htot). cbn [fst snd] in *.
    cbv zeta.
    destruct (register_loop M i pc) as (pc' & E1 & Hlen' & Hcells');
      [lia|lia|assumption|].
    rewrite E1. cbn [bind].
    rewrite (query_loop N M i pc' total); [|lia|lia|assumption|].
    + cbn [bind]. eexists. split; [reflexivity|].
      split; [assumption|]. cbn [fst snd].
      replace (i - 1 + 1) with i by lia. split.
      * intros t Ht. rewrite Hcells', Hcells by assumption.
        symmetry. apply pairs_above_step. lia.
      * rewrite Htot. symmetry. apply sweep_total_step. lia.
    + intros t Ht. rewrite Hcells', Hcells by assumption.
      symmetry. apply pairs_above_step. lia.
  - exists st. split; [assumption|].
    destruct Hinv as (_ & _ & Htot).
    replace (Z.min (M - 2) 1 + 1) with 2 in Htot by lia. assumption.
Qed.

(** The quadruples with a fixed second element [b], summed in the order of
    the sweep. *)
Lemma quadruples_by_second N M b :
  1 <= b <= M ->
  sumZ (fun a => sumZ (fun c => sumZ (fun d =>
    ind (increasing (a, b, c, d)) * ind (a + b + c + d =? N))
    (range 1 (M + 1))) (range 1 (M + 1))) (range 1 (M + 1)) =
  sumZ (fun a => pairs_above M b (N - b - a)) (range 1 b).
Proof.
  intros Hb.
  rewrite <- (sumZ_range_below 1 (M + 1) b) by lia.
  apply sumZ_ext; intros a Ha. apply In_range in Ha.
  destruct (Z.ltb_spec a b) as [Hab|Hab].
  2:{ apply sumZ_zero; intros c _. apply sumZ_zero; intros d _.
      cbn [increasing]. destruct (Z.ltb_spec a b); [lia|]. reflexivity. }
  unfold pairs_above.
  assert (E : sumZ (fun c => sumZ (fun d => ind (c + d =? N - b - a))
                               (range (c + 1) (M + 1))) (range (b + 1) M) =
              sumZ (fun c => sumZ (fun d => ind (c + d =? N - b - a))
                               (range (c + 1) (M + 1))) (range (b + 1) (M + 1))).
  { destruct (Z.eq_dec b M) as [->|Hne].
    - now rewrite !range_nil by lia.
    - rewrite (range_snoc (b + 1) M), sumZ_app, sumZ_cons, sumZ_nil by lia.
      rewrite (range_nil (M + 1) (M + 1)) by lia. cbn [sumZ fold_right]. lia. }
  rewrite E. rewrite <- (sumZ_range_above 1 (M + 1) b) by lia.
  apply sumZ_ext; intros c Hc. apply In_range in Hc.
  destruct (Z.ltb_spec b c) as [Hbc|Hbc].
  2:{ apply sumZ_zero; intros d _. cbn [increasing].
      destruct (Z.ltb_spec b c); [lia|]. now rewrite andb_false_r. }
  rewrite <- (sumZ_range_above 1 (M + 1) c) by lia.
  apply sumZ_ext; intros d Hd. cbn [increasing].
  destruct (Z.ltb_spec a b), (Z.ltb_spec b c), (Z.ltb_spec c d);
    cbn [andb ind]; try lia.
  rewrite Z.mul_1_l.
  destruct (Z.eqb_spec (a + b + c + d) N), (Z.eqb_spec (c + d) (N - b - a));
    (reflexivity || lia).
Qed.

Lemma sweep_total_count N M :
  4 <= M -> sweep_total N M 2 = quadruple_count N M.
Proof.
  intros HM. unfold quadruple_count, quadruples.
  rewrite (count_quadruples_sum4 (fun s => s =? N) M).
  unfold sum4. rewrite sumZ_swap.
  rewrite (sumZ_ext _ (fun b => sumZ (fun a => pairs_above M b (N - b - a))
                                     (range 1 b)) (range 1 (M + 1))).
  2:{ intros b Hb. apply In_range in Hb.
      apply (quadruples_by_second N M b). lia. }
  unfold sweep_total.
  rewrite (range_cons 1 (M + 1)), (range_app (1 + 1) (M - 1) (M + 1)) by lia.
  rewrite sumZ_cons, sumZ_app.
  rewrite (range_nil 1 1), sumZ_nil by lia.
  rewrite (sumZ_zero _ (range (M - 1) (M + 1))).
  - change (1 + 1) with 2. lia.
  - intros b Hb. apply In_range in Hb.
    apply sumZ_zero; intros a _. unfold pairs_above.
    now rewrite range_nil by lia.
Qed.

(** The pair-sum sweep returns the number of quadruples, on every input. *)
Lemma count_quadruples_pair_sum_correct N M show_progress progress_position
  progress_desc :
  count_quadruples_pair_sum N M show_progress progress_position
    progress_desc = Ret (quadruple_count N M).
Proof.
  unfold count_quadruples_pair_sum.
  destruct (Z.ltb_spec N 10) as [H1|H1]; cbn [orb].
  { rewrite quadruples_out_of_range by lia. reflexivity. }
  destruct (Z.gtb_spec N (4 * M - 6)) as [H2|H2].
  { rewrite quadruples_out_of_range by lia. reflexivity. }
  cbv zeta.
  replace (if show_progress then _ else _) with (range_down (M - 2) 1)
    by (destruct show_progress; reflexivity).
  destruct (sweep_loop N M) as (st & E & Htot); [lia|].
  cbv zeta in E. rewrite E. cbn [bind]. rewrite Htot, sweep_total_count by lia.
  reflexivity.
Qed.

(* ===================================================================== *)
(** ** Closed forms of weighted subset sums *)
(* ===================================================================== *)

Lemma wsub_null lo len k off : wsub (fun _ => 0) lo len k off = 0.
Proof.
  revert k off. induction len as [|len IH]; intros k off; cbn [wsub].
  - now destruct k.
  - rewrite IH. destruct k; [reflexivity|]. now rewrite IH.
Qed.

Lemma wsub_sumZ {A} (w : A -> Z -> Z) l lo len k off :
  wsub (fun s => sumZ (fun j => w j s) l) lo len k off =
  sumZ (fun j => wsub (w j) lo len k off) l.
Proof.
  induction l as [|j l IH].
  - cbn [sumZ fold_right]. apply wsub_null.
  - rewrite sumZ_cons, <- IH.
    rewrite (wsub_ext _ (fun s => 1 * w j s + 1 * sumZ (fun j' => w j' s) l)).
    + rewrite wsub_linear. lia.
    + intros s. rewrite sumZ_cons. lia.
Qed.

(** Binomial coefficients: the number of k-subsets, for k up to 4. *)
Lemma wsub_const lo len off :
  let n := Z.of_nat len in
  wsub (fun _ => 1) lo len 1 off = n /\
  2 * wsub (fun _ => 1) lo len 2 off = n * (n - 1) /\
  6 * wsub (fun _ => 1) lo len 3 off = n * (n - 1) * (n - 2) /\
  24 * wsub (fun _ => 1) lo len 4 off = n * (n - 1) * (n - 2) * (n - 3).
Proof.
  revert off. induction len as [|len IH]; intros off.
  - cbn. lia.
  - cbv zeta. cbn [wsub]. rewrite wsub_none.
    destruct (IH off) as (H1 & H2 & H3 & H4).
    destruct (IH (off + (lo + Z.of_nat (S len)))) as (H1' & H2' & H3' & _).
    cbv zeta in *. rewrite Nat2Z.inj_succ in *. unfold Z.succ in *.
    repeat split; lia.
Qed.

(** Multiplicative characters: a pair [(u, v)] behaving like the real and
    imaginary parts of a complex character of the integers. *)
Section Character.
Variables u v : Z -> Z.
Hypothesis u_add : forall x y, u (x + y) = u x * u y - v x * v y.
Hypothesis v_add : forall x y, v (x + y) = v x * u y + u x * v y.

Lemma char_offset_u lo len k off :
  wsub u lo len k off =
  u off * wsub u lo len k 0 - v off * wsub v lo len k 0.
Proof.
  replace off with (0 + off) at 1 by lia. rewrite wsub_offset.
  rewrite (wsub_ext _ (fun x => u off * u x + (- v off) * v x)).
  - rewrite wsub_linear. lia.
  - intros x. rewrite u_add. ring.
Qed.

Lemma char_offset_v lo len k off :
  wsub v lo len k off =
  v off * wsub u lo len k 0 + u off * wsub v lo len k 0.
Proof.
  replace off with (0 + off) at 1 by lia. rewrite wsub_offset.
  rewrite (wsub_ext _ (fun x => v off * u x + u off * v x)).
  - now rewrite wsub_linear.
  - intros x. rewrite v_add. ring.
Qed.

Lemma char_step_u len k :
  wsub u 0 (S len) (S k) 0 =
  wsub u 0 len (S k) 0 +
  (u (Z.of_nat (S len)) * wsub u 0 len k 0 -
   v (Z.of_nat (S len)) * wsub v 0 len k 0).
Proof.
  cbn [wsub]. f_equal. rewrite char_offset_u.
  replace (0 + (0 + Z.of_nat (S len))) with (Z.of_nat (S len)) by lia.
  reflexivity.
Qed.

Lemma char_step_v len k :
  wsub v 0 (S len) (S k) 0 =
  wsub v 0 len (S k) 0 +
  (v (Z.of_nat (S len)) * wsub u 0 len k 0 +
   u (Z.of_nat (S len)) * wsub v 0 len k 0).
Proof.
  cbn [wsub]. f_equal. rewrite char_offset_v.
  replace (0 + (0 + Z.of_nat (S len))) with (Z.of_nat (S len)) by lia.
  reflexivity.
Qed.
End Character.

Lemma mod2_cases x : x mod 2 = 0 \/ x mod 2 = 1.
Proof. pose proof (Z.mod_pos_bound x 2). lia. Qed.

Lemma mod4_cases x : x mod 4 = 0 \/ x mod 4 = 1 \/ x mod 4 = 2 \/ x mod 4 = 3.
Proof. pose proof (Z.mod_pos_bound x 4). lia. Qed.

Lemma sgn_add x y : sgn (x + y) = sgn x * sgn y - 0 * 0.
Proof.
  unfold sgn. rewrite (Z.add_mod x y 2) by lia.
  destruct (mod2_cases x) as [-> | ->], (mod2_cases y) as [-> | ->];
    reflexivity.
Qed.

Lemma re4_add x y : re4 (x + y) = re4 x * re4 y - im4 x * im4 y.
Proof.
  unfold re4, im4. rewrite (Z.add_mod x y 4) by lia.
  destruct (mod4_cases x) as [-> | [-> | [-> | ->]]],
           (mod4_cases y) as [-> | [-> | [-> | ->]]]; reflexivity.
Qed.

Lemma im4_add x y : im4 (x + y) = im4 x * re4 y + re4 x * im4 y.
Proof.
  unfold re4, im4. rewrite (Z.add_mod x y 4) by lia.
  destruct (mod4_cases x) as [-> | [-> | [-> | ->]]],
           (mod4_cases y) as [-> | [-> | [-> | ->]]]; reflexivity.
Qed.

Lemma sgn_step len k :
  wsub sgn 0 (S len) (S k) 0 =
  wsub sgn 0 len (S k) 0 + sgn (Z.of_nat (S len)) * wsub sgn 0 len k 0.
Proof.
  rewrite (char_step_u sgn (fun _ => 0) sgn_add), wsub_null. lia.
Qed.

Lemma sgn_even_odd h :
  sgn (Z.of_nat (S (2 * h))) = -1 /\ sgn (Z.of_nat (S (S (2 * h)))) = 1.
Proof.
  unfold sgn.
  replace (Z.of_nat (S (2 * h))) with (1 + Z.of_nat h * 2) by lia.
  replace (Z.of_nat (S (S (2 * h)))) with (0 + (Z.of_nat h + 1) * 2) by lia.
  rewrite !Z.mod_add by lia. split; reflexivity.
Qed.

(** Coefficients of (1 - x^2)^h. *)
Lemma wsub_sgn_even h :
  wsub sgn 0 (2 * h) 1 0 = 0 /\
  wsub sgn 0 (2 * h) 2 0 = - Z.of_nat h /\
  wsub sgn 0 (2 * h) 3 0 = 0 /\
  2 * wsub sgn 0 (2 * h) 4 0 = Z.of_nat h * (Z.of_nat h - 1).
Proof.
  induction h as [|h (H1 & H2 & H3 & H4)].
  - cbn. lia.
  - replace (2 * S h)%nat with (S (S (2 * h))) by lia.
    destruct (sgn_even_odd h) as [So Se].
    rewrite !(sgn_step (S (2 * h))), !(sgn_step (2 * h)), !wsub_none.
    rewrite So, Se, H1, H2, H3.
    change (sgn 0) with 1.
    rewrite Nat2Z.inj_succ. unfold Z.succ.
    repeat split; lia.
Qed.

Lemma char4_values q :
  let n := (4 * q)%nat in
  (re4 (Z.of_nat (S n)) = 0 /\ im4 (Z.of_nat (S n)) = 1) /\
  (re4 (Z.of_nat (S (S n))) = -1 /\ im4 (Z.of_nat (S (S n))) = 0) /\
  (re4 (Z.of_nat (S (S (S n)))) = 0 /\ im4 (Z.of_nat (S (S (S n)))) = -1) /\
  (re4 (Z.of_nat (S (S (S (S n))))) = 1 /\
   im4 (Z.of_nat (S (S (S (S n))))) = 0).
Proof.
  cbv zeta. unfold re4, im4.
  replace (Z.of_nat (S (4 * q))) with (1 + Z.of_nat q * 4) by lia.
  replace (Z.of_nat (S (S (4 * q)))) with (2 + Z.of_nat q * 4) by lia.
  replace (Z.of_nat (S (S (S (4 * q))))) with (3 + Z.of_nat q * 4) by lia.
  replace (Z.of_nat (S (S (S (S (4 * q))))))
    with (0 + (Z.of_nat q + 1) * 4) by lia.
  rewrite !Z.mod_add by lia. repeat split; reflexivity.
Qed.

(** Coefficients of (1 - x^4)^q. *)
Lemma wsub_char4 q :
  (wsub re4 0 (4 * q) 1 0 = 0 /\ wsub im4 0 (4 * q) 1 0 = 0) /\
  (wsub re4 0 (4 * q) 2 0 = 0 /\ wsub im4 0 (4 * q) 2 0 = 0) /\
  (wsub re4 0 (4 * q) 3 0 = 0 /\ wsub im4 0 (4 * q) 3 0 = 0) /\
  (wsub re4 0 (4 * q) 4 0 = - Z.of_nat q /\ wsub im4 0 (4 * q) 4 0 = 0).
Proof.
  induction q as [|q ((A1 & B1) & (A2 & B2) & (A3 & B3) & (A4 & B4))].
  - cbn. lia.
  - replace (4 * S q)%nat with (S (S (S (S (4 * q))))) by lia.
    destruct (char4_values q)
      as ((R1 & I1) & (R2 & I2) & (R3 & I3) & (R4 & I4)).
    cbv zeta in *.
    repeat (rewrite ?(char_step_u re4 im4 re4_add),
                    ?(char_step_v re4 im4 im4_add), ?wsub_none).
    rewrite R1, I1, R2, I2, R3, I3, R4, I4, A1, B1, A2, B2, A3, B3, A4, B4.
    change (re4 0) with 1. change (im4 0) with 0.
    rewrite Nat2Z.inj_succ. unfold Z.succ.
    repeat split; lia.
Qed.

(* ===================================================================== *)
(** ** Residue classes of the sum, and rotation *)
(* ===================================================================== *)

Lemma divides_congr n x y : (n | x - y) -> divides n x = divides n y.
Proof.
  intros H. apply eq_true_iff_eq. rewrite !divides_spec. split; intros H'.
  - replace y with (x - (x - y)) by lia. now apply Z.divide_sub_r.
  - replace x with (y + (x - y)) by lia. now apply Z.divide_add_r.
Qed.

Lemma class_count_congr len r r' :
  (Z.of_nat len | r - r') -> class_count len r = class_count len r'.
Proof.
  intros H. unfold class_count. apply wsub_ext. intros x. f_equal.
  apply divides_congr. replace (x - r - (x - r')) with (- (r - r')) by lia.
  now apply Z.divide_opp_r.
Qed.

Lemma class_count_rotate len r :
  class_count len (r - 4) = class_count len r.
Proof.
  unfold class_count.
  rewrite <- (wsub_rotate (fun s => ind (divides (Z.of_nat len) (s - r)))
                          len 4).
  - apply wsub_ext. intros x. do 2 f_equal. lia.
  - intros x. f_equal. apply divides_congr.
    exists 1. lia.
Qed.

Lemma class_count_rotate_iter len r (k : nat) :
  class_count len (r - 4 * Z.of_nat k) = class_count len r.
Proof.
  induction k as [|k IH].
  - f_equal. lia.
  - replace (r - 4 * Z.of_nat (S k)) with (r - 4 * Z.of_nat k - 4) by lia.
    now rewrite class_count_rotate.
Qed.

(** Every class that is a multiple of [g] has as many quadruples as the
    class of 0, as soon as 4 generates the multiples of [g] modulo [len]. *)
Lemma class_count_multiple len g u j :
  (Z.of_nat len | 4 * u - g) -> 0 <= u -> 0 <= j ->
  class_count len (g * j) = class_count len 0.
Proof.
  intros Hu Hu0 Hj.
  rewrite <- (class_count_rotate_iter len (g * j) (Z.to_nat (j * u))).
  apply class_count_congr.
  destruct Hu as [z Hz]. exists (- j * z).
  rewrite Z2Nat.id by lia.
  replace (g * j - 4 * (j * u) - 0) with (- j * (4 * u - g)) by ring.
  rewrite Hz. ring.
Qed.

Lemma partition_classes g m s :
  0 < g -> 0 < m ->
  sumZ (fun j => ind (divides (g * m) (s - g * j))) (range 0 m) =
  ind (divides g s).
Proof.
  intros Hg Hm. destruct (divides g s) eqn:E.
  - apply divides_spec in E. destruct E as [s' ->].
    rewrite <- (sumZ_point 0 m (s' mod m) (fun _ => ind true)).
    2:{ apply Z.mod_pos_bound. lia. }
    apply sumZ_ext. intros j Hj. apply In_range in Hj.
    destruct (Z.eqb_spec j (s' mod m)) as [->|Hne].
    + f_equal. apply divides_spec. exists (s' / m).
      pose proof (Z.div_mod s' m ltac:(lia)) as Hd.
      replace (s' * g - g * (s' mod m)) with (g * (s' - s' mod m)) by ring.
      replace (s' - s' mod m) with (m * (s' / m)) by lia. ring.
    + f_equal. destruct (divides (g * m) (s' * g - g * j)) eqn:E;
        [|reflexivity].
      apply divides_spec in E. destruct E as [z Hz]. exfalso. apply Hne.
      apply (Z.mod_unique s' m z j); [lia|].
      apply (Z.mul_reg_l _ _ g); [lia|]. lia.
  - apply sumZ_zero. intros j _.
    destruct (divides (g * m) (s - g * j)) eqn:E'; [|reflexivity].
    apply divides_spec in E'. destruct E' as [z Hz].
    assert (Hd : divides g s = true).
    { apply divides_spec. exists (z * m + j). lia. }
    congruence.
Qed.

Lemma sumZ_const {A} (c : Z) (l : list A) :
  sumZ (fun _ => c) l = Z.of_nat (length l) * c.
Proof.
  induction l as [|x l IH]; [reflexivity|].
  rewrite sumZ_cons, IH. cbn [length]. lia.
Qed.

Lemma length_range lo hi : length (range lo hi) = Z.to_nat (hi - lo).
Proof. unfold range. now rewrite length_map, length_seq. Qed.

(** The rotation argument: with n = g * m and 4 generating the multiples of
    [g] modulo [n], the quadruples whose sum is divisible by [g] split into
    [m] classes of equal size, one of which is the class of the sums
    divisible by [n]. *)
Lemma rotation_count len g m u :
  0 < g -> 0 < m -> Z.of_nat len = g * m ->
  (Z.of_nat len | 4 * u - g) -> 0 <= u ->
  m * wsub (fun s => ind (divides (Z.of_nat len) s)) 0 len 4 0 =
  wsub (fun s => ind (divides g s)) 0 len 4 0.
Proof.
  intros Hg Hm Hn Hu Hu0.
  rewrite (wsub_ext (fun s => ind (divides g s))
             (fun s => sumZ (fun j => ind (divides (Z.of_nat len) (s - g * j)))
                            (range 0 m))).
  2:{ intros s. rewrite Hn. symmetry. now apply partition_classes. }
  rewrite wsub_sumZ.
  rewrite (sumZ_ext _ (fun _ => class_count len 0) (range 0 m)).
  2:{ intros j Hj. apply In_range in Hj.
      apply (class_count_multiple len g u j); (assumption || lia). }
  rewrite sumZ_const, length_range.
  replace (Z.of_nat (Z.to_nat (m - 0))) with m by lia. f_equal.
  unfold class_count. apply wsub_ext. intros s. do 2 f_equal. lia.
Qed.

(* ===================================================================== *)
(** ** src/main.py: the closed formula *)
(* ===================================================================== *)

Lemma factorial_pos m : 0 < factorial m.
Proof. induction m as [|m IH]; cbn [factorial]; lia. Qed.

Lemma total_count n :
  0 <= n ->
  24 * wsub (fun _ => 1) 0 (Z.to_nat n) 4 0 =
  n * (n - 1) * (n - 2) * (n - 3).
Proof.
  intros Hn. destruct (wsub_const 0 (Z.to_nat n) 0) as (_ & _ & _ & H).
  cbv zeta in H. rewrite Z2Nat.id in H by assumption. exact H.
Qed.

(** [math.comb(n, 4)] is the number of 4-subsets of {1, ..., n}. *)
Lemma comb_4 n :
  4 <= n -> comb n 4 = Ret (wsub (fun _ => 1) 0 (Z.to_nat n) 4 0).
Proof.
  intros Hn. unfold comb.
  destruct (Z.ltb_spec n 0); [lia|]. cbn [orb Z.ltb Z.compare].
  destruct (Z.ltb_spec n 4); [lia|]. f_equal.
  pose proof (total_count n ltac:(lia)) as HT.
  pose proof (factorial_pos (Z.to_nat (n - 4))) as Hf.
  replace (Z.to_nat n) with (S (S (S (S (Z.to_nat (n - 4)))))) at 1 by lia.
  cbn [factorial].
  rewrite !Nat2Z.inj_succ, Z2Nat.id by lia. unfold Z.succ.
  set (f := factorial (Z.to_nat (n - 4))) in *.
  set (T := wsub _ 0 (Z.to_nat n) 4 0) in *.
  replace ((n - 4 + 1 + 1 + 1 + 1) *
           ((n - 4 + 1 + 1 + 1) * ((n - 4 + 1 + 1) * ((n - 4 + 1) * f))))
    with (n * (n - 1) * (n - 2) * (n - 3) * f) by ring.
  rewrite <- HT.
  replace (24 * T * f) with (T * (24 * f)) by ring.
  change (factorial (Z.to_nat 4)) with 24.
  apply Z.div_mul. lia.
Qed.

Lemma ind_divides_1 s : ind (divides 1 s) = 1.
Proof. unfold divides. now rewrite Z.mod_1_r. Qed.

Lemma ind_divides_2 s : 2 * ind (divides 2 s) = 1 + sgn s.
Proof.
  unfold divides, sgn. destruct (mod2_cases s) as [-> | ->]; reflexivity.
Qed.

Lemma mod4_mod2 s : s mod 2 = (s mod 4) mod 2.
Proof.
  rewrite (Z.div_mod s 4) at 1 by lia.
  replace (4 * (s / 4) + s mod 4) with (s mod 4 + (2 * (s / 4)) * 2) by ring.
  apply Z.mod_add. lia.
Qed.

Lemma ind_divides_4 s :
  4 * ind (divides 4 s) = 1 + sgn s + 2 * re4 s.
Proof.
  unfold divides, sgn, re4. rewrite mod4_mod2.
  destruct (mod4_cases s) as [-> | [-> | [-> | ->]]]; reflexivity.
Qed.

(** Counting the quadruples whose sum is divisible by n: the identity behind
    each branch of [solve_with_formula]. *)
Lemma divisible_count_odd n :
  5 <= n -> n mod 4 = 1 \/ n mod 4 = 3 ->
  n * divisible_count n = wsub (fun _ => 1) 0 (Z.to_nat n) 4 0.
Proof.
  intros Hn Hr. rewrite divisible_count_wsub.
  pose proof (Z.div_mod n 4 ltac:(lia)) as Hd.
  assert (Hu : exists u, 0 <= u /\ (n | 4 * u - 1)).
  { destruct Hr as [Hr|Hr].
    - exists (3 * (n / 4) + 1). split; [lia|]. exists 3. lia.
    - exists (n / 4 + 1). split; [lia|]. exists 1. lia. }
  destruct Hu as (u & Hu0 & Hu).
  pose proof (rotation_count (Z.to_nat n) 1 n u) as Hrot.
  rewrite Z2Nat.id in Hrot by lia.
  rewrite (Hrot ltac:(lia) ltac:(lia) ltac:(lia) Hu Hu0).
  apply wsub_ext. intros s. apply ind_divides_1.
Qed.

Lemma divisible_count_2mod4 n :
  5 <= n -> n mod 4 = 2 ->
  2 * n * divisible_count n =
  2 * wsub (fun _ => 1) 0 (Z.to_nat n) 4 0 + (n / 2) * (n / 2 - 1).
Proof.
  intros Hn Hr. rewrite divisible_count_wsub.
  pose proof (Z.div_mod n 4 ltac:(lia)) as Hd.
  assert (Hh : n / 2 = 2 * (n / 4) + 1).
  { symmetry. apply (Z.div_unique n 2 _ 0); lia. }
  pose proof (rotation_count (Z.to_nat n) 2 (n / 2) (n / 4 + 1)) as Hrot.
  rewrite Z2Nat.id in Hrot by lia.
  specialize (Hrot ltac:(lia) ltac:(lia) ltac:(lia)).
  assert (Hdiv : (n | 4 * (n / 4 + 1) - 2)) by (exists 1; lia).
  specialize (Hrot Hdiv ltac:(lia)).
  assert (H2 : 2 * wsub (fun s => ind (divides 2 s)) 0 (Z.to_nat n) 4 0 =
               wsub (fun _ => 1) 0 (Z.to_nat n) 4 0 +
               wsub sgn 0 (Z.to_nat n) 4 0).
  { rewrite <- wsub_scale.
    rewrite (wsub_ext _ (fun s => 1 + sgn s)) by apply ind_divides_2.
    apply (wsub_plus (fun _ => 1) sgn). }
  destruct (wsub_sgn_even (Z.to_nat (n / 2))) as (_ & _ & _ & HE).
  replace (2 * Z.to_nat (n / 2))%nat with (Z.to_nat n) in HE by lia.
  rewrite Z2Nat.id in HE by lia.
  set (D := wsub _ 0 (Z.to_nat n) 4 0) in *.
  set (G := wsub (fun s => ind (divides 2 s)) 0 (Z.to_nat n) 4 0) in *.
  set (T := wsub (fun _ => 1) 0 (Z.to_nat n) 4 0) in *.
  set (E := wsub sgn 0 (Z.to_nat n) 4 0) in *.
  replace (2 * n * D) with (2 * (2 * (n / 2)) * D) by lia.
  replace (2 * (2 * (n / 2)) * D) with (4 * (n / 2 * D)) by ring.
  rewrite Hrot. lia.
Qed.

Lemma divisible_count_0mod4 n :
  5 <= n -> n mod 4 = 0 ->
  4 * n * divisible_count n =
  4 * wsub (fun _ => 1) 0 (Z.to_nat n) 4 0 + (n / 4) * (2 * n - 12).
Proof.
  intros Hn Hr. rewrite divisible_count_wsub.
  pose proof (Z.div_mod n 4 ltac:(lia)) as Hd.
  pose proof (rotation_count (Z.to_nat n) 4 (n / 4) 1) as Hrot.
  rewrite Z2Nat.id in Hrot by lia.
  specialize (Hrot ltac:(lia) ltac:(lia) ltac:(lia)).
  assert (Hdiv : (n | 4 * 1 - 4)) by (exists 0; lia).
  specialize (Hrot Hdiv ltac:(lia)).
  assert (H4 : 4 * wsub (fun s => ind (divides 4 s)) 0 (Z.to_nat n) 4 0 =
               wsub (fun _ => 1) 0 (Z.to_nat n) 4 0 +
               wsub sgn 0 (Z.to_nat n) 4 0 +
               2 * wsub re4 0 (Z.to_nat n) 4 0).
  { rewrite <- wsub_scale.
    rewrite (wsub_ext _ (fun s => 1 + sgn s + 2 * re4 s))
      by apply ind_divides_4.
    rewrite (wsub_plus (fun s => 1 + sgn s) (fun s => 2 * re4 s)).
    rewrite (wsub_plus (fun _ => 1) sgn), wsub_scale. reflexivity. }
  destruct (wsub_sgn_even (Z.to_nat (n / 2))) as (_ & _ & _ & HE).
  assert (Hh : n / 2 = 2 * (n / 4)).
  { symmetry. apply (Z.div_unique n 2 _ 0); lia. }
  replace (2 * Z.to_nat (n / 2))%nat with (Z.to_nat n) in HE by lia.
  rewrite Z2Nat.id in HE by lia.
  destruct (wsub_char4 (Z.to_nat (n / 4))) as (_ & _ & _ & HA & _).
  replace (4 * Z.to_nat (n / 4))%nat with (Z.to_nat n) in HA by lia.
  rewrite Z2Nat.id in HA by lia.
  set (D := wsub _ 0 (Z.to_nat n) 4 0) in *.
  set (G := wsub (fun s => ind (divides 4 s)) 0 (Z.to_nat n) 4 0) in *.
  set (T := wsub (fun _ => 1) 0 (Z.to_nat n) 4 0) in *.
  set (E := wsub sgn 0 (Z.to_nat n) 4 0) in *.
  set (A := wsub re4 0 (Z.to_nat n) 4 0) in *.
  replace (4 * n * D) with (4 * (4 * (n / 4)) * D) by lia.
  replace (4 * (4 * (n / 4)) * D) with (16 * (n / 4 * D)) by ring.
  rewrite Hrot, Hh in *. nia.
Qed.

(** The intermediate values of [solve_with_formula]: [comb(n, 4) * 4] is
    [base * n], and in each branch the dividend is a multiple of the
    divisor whose quotient is the number of quadruples with a sum divisible
    by n. *)
Lemma formula_values n :
  5 <= n ->
  exists base,
    wsub (fun _ => 1) 0 (Z.to_nat n) 4 0 * 4 = base * n /\
    (n mod 4 = 1 \/ n mod 4 = 3 -> base = divisible_count n * 4) /\
    (n mod 4 = 2 -> base * 2 + n - 2 = divisible_count n * 8) /\
    (n mod 4 = 0 -> base * 2 + n - 6 = divisible_count n * 8).
Proof.
  intros Hn.
  pose proof (Z.div_mod n 4 ltac:(lia)) as Hd.
  destruct (mod4_cases n) as [Hr | [Hr | [Hr | Hr]]].
  - pose proof (divisible_count_0mod4 n Hn Hr) as H.
    exists (4 * divisible_count n - 2 * (n / 4) + 3).
    set (D := divisible_count n) in *.
    set (T := wsub _ 0 (Z.to_nat n) 4 0) in *.
    set (q := n / 4) in *.
    repeat split; (lia || nia).
  - pose proof (divisible_count_odd n Hn (or_introl Hr)) as H.
    exists (divisible_count n * 4). repeat split; try lia.
  - pose proof (divisible_count_2mod4 n Hn Hr) as H.
    assert (Hh : n / 2 = 2 * (n / 4) + 1).
    { symmetry. apply (Z.div_unique n 2 _ 0); lia. }
    exists (4 * divisible_count n - n / 2 + 1).
    set (D := divisible_count n) in *.
    set (T := wsub _ 0 (Z.to_nat n) 4 0) in *.
    rewrite Hh in *.
    set (q := n / 4) in *.
    repeat split; (lia || nia).
  - pose proof (divisible_count_odd n Hn (or_intror Hr)) as H.
    exists (divisible_count n * 4). repeat split; try lia.
Qed.

Lemma divisible_out_of_range n : n < 5 -> divisible_count n = 0.
Proof.
  intros H. unfold divisible_count.
  destruct (divisible_quadruples n) as [|[[[a b] c] d] l] eqn:E;
    [reflexivity|].
  assert (Hin : In (a, b, c, d) (divisible_quadruples n))
    by (rewrite E; now left).
  apply In_divisible_quadruples in Hin.
  destruct Hin as (H1 & H2 & H3 & [z Hz]).
  assert (n = 4) as -> by lia.
  assert (a = 1 /\ b = 2 /\ c = 3 /\ d = 4) as (-> & -> & -> & ->) by lia.
  lia.
Qed.

(** The closed formula returns the number of quadruples whose sum is
    divisible by n, on every input. *)
Lemma formula_body_correct n : formula_body n = Ret (divisible_count n).
Proof.
  unfold formula_body.
  destruct (Z.ltb_spec n 5) as [H|H].
  { now rewrite divisible_out_of_range. }
  rewrite comb_4 by lia. cbn [bind]. unfold floordiv, pymod.
  destruct (Z.eqb_spec n 0); [lia|]. cbn [bind Z.eqb].
  destruct (formula_values n H) as (base & Hb & Hodd & H2 & H0).
  rewrite Hb, Z.div_mul by lia.
  destruct (mod4_cases n) as [Hr | [Hr | [Hr | Hr]]]; rewrite Hr;
    cbn [Z.eqb Pos.eqb orb].
  - rewrite H0 by assumption. now rewrite Z.div_mul.
  - rewrite Hodd by tauto. now rewrite Z.div_mul.
  - rewrite H2 by assumption. now rewrite Z.div_mul.
  - rewrite Hodd by tauto. now rewrite Z.div_mul.
Qed.

(** A quadruple over {1..n} has a sum divisible by n exactly when the sum
    is n, 2n or 3n. *)
Lemma divisible_count_multipliers n :
  5 <= n ->
  divisible_count n =
  quadruple_count (n * 1) n + quadruple_count (n * 2) n +
  quadruple_count (n * 3) n.
Proof.
  intros Hn. unfold divisible_count, divisible_quadruples, quadruple_count,
    quadruples.
  rewrite (count_quadruples_sum4 (divides n)),
    !(count_quadruples_sum4 (fun s => s =? _)).
  unfold sum4.
  rewrite <- !sumZ_plus. apply sumZ_ext; intros a Ha.
  rewrite <- !sumZ_plus. apply sumZ_ext; intros b Hb.
  rewrite <- !sumZ_plus. apply sumZ_ext; intros c Hc.
  rewrite <- !sumZ_plus. apply sumZ_ext; intros d Hd.
  apply In_range in Ha, Hb, Hc, Hd.
  destruct (increasing (a, b, c, d)) eqn:E; [|reflexivity].
  cbn [increasing] in E. rewrite !andb_true_iff, !Z.ltb_lt in E.
  cbn [ind]. rewrite !Z.mul_1_l.
  set (s := a + b + c + d).
  assert (Hs : 0 < s < 4 * n) by (unfold s; lia).
  destruct (divides n s) eqn:Ed.
  - apply divides_spec in Ed. destruct Ed as [z Hz].
    assert (z = 1 \/ z = 2 \/ z = 3) as [-> | [-> | ->]] by nia.
    + destruct (Z.eqb_spec s (n * 1)), (Z.eqb_spec s (n * 2)),
        (Z.eqb_spec s (n * 3)); cbn [ind]; lia.
    + destruct (Z.eqb_spec s (n * 1)), (Z.eqb_spec s (n * 2)),
        (Z.eqb_spec s (n * 3)); cbn [ind]; lia.
    + destruct (Z.eqb_spec s (n * 1)), (Z.eqb_spec s (n * 2)),
        (Z.eqb_spec s (n * 3)); cbn [ind]; lia.
  - assert (Hnd : ~ (n | s)).
    { intros Hd'. apply divides_spec in Hd'. congruence. }
    destruct (Z.eqb_spec s (n * 1)) as [E1|_].
    { exfalso. apply Hnd. exists 1. lia. }
    destruct (Z.eqb_spec s (n * 2)) as [E2|_].
    { exfalso. apply Hnd. exists 2. lia. }
    destruct (Z.eqb_spec s (n * 3)) as [E3|_].
    { exfalso. apply Hnd. exists 3. lia. }
    reflexivity.
Qed.

Lemma sum_over_multipliers_correct counter n show_progress
  progress_position progress_desc :
  (forall N M sp pp pd, counter N M sp pp pd = Ret (quadruple_count N M)) ->
  sum_over_multipliers counter n show_progress progress_position
    progress_desc =
  Ret (0 + quadruple_count (n * 1) n + quadruple_count (n * 2) n +
       quadruple_count (n * 3) n).
Proof.
  intros H. unfold sum_over_multipliers. cbn [for_each].
  rewrite !H. reflexivity.
Qed.

(* ===================================================================== *)
(** ** Reflection a |-> M + 1 - a *)
(* ===================================================================== *)

Lemma quadruple_count_reflect N M :
  quadruple_count N M = quadruple_count (4 * M + 4 - N) M.
Proof.
  rewrite !quadruple_count_wsub.
  destruct (Z_lt_le_dec M 0) as [HM|HM].
  { replace (Z.to_nat M) with 0%nat by lia. reflexivity. }
  unfold subset_count.
  rewrite (wsub_reflect _ 0 0 (Z.to_nat M) 4 0 (M + 1)) by lia.
  apply wsub_ext. intros s. f_equal.
  destruct (Z.eqb_spec (0 + Z.of_nat 4 * (M + 1) - s) N),
           (Z.eqb_spec s (4 * M + 4 - N)); (reflexivity || lia).
Qed.

Lemma count_quadruples_reflect N M sp pp pd sp' pp' pd' :
  count_quadruples N M sp pp pd =
  count_quadruples (4 * M + 4 - N) M sp' pp' pd'.
Proof.
  rewrite !count_quadruples_correct. f_equal. apply quadruple_count_reflect.
Qed.

(* ===================================================================== *)
(** ** Concrete runs *)
(* ===================================================================== *)

Example dp_10_4 : count_quadruples 10 4 true None None = Ret 1.
Proof. vm_compute. reflexivity. Qed.

Example pair_sum_10_4 : count_quadruples_pair_sum 10 4 true None None = Ret 1.
Proof. vm_compute. reflexivity. Qed.

Example dp_9_10 : count_quadruples 9 10 true None None = Ret 0.
Proof. vm_compute. reflexivity. Qed.

Example quadruples_11_5 : quadruples 11 5 = [(1, 2, 3, 5)].
Proof. vm_compute. reflexivity. Qed.

Example formula_small :
  map formula_body [4; 5; 6; 7; 8; 9; 10] =
  map Ret [0; 1; 3; 5; 9; 14; 22].
Proof. vm_compute. reflexivity. Qed.

Example dp_sum_small :
  map (fun n => sum_over_multipliers count_quadruples n false None None)
      [4; 5; 6; 7; 8; 9; 10] =
  map Ret [0; 1; 3; 5; 9; 14; 22].
Proof. vm_compute. reflexivity. Qed.

Example harness_desc :
  mult_desc (Some "DP n=5"%string) 3 = Some "DP n=5 (mult=3)"%string.
Proof. reflexivity. Qed.

(* ===================================================================== *)
(** ** The claims *)
(* ===================================================================== *)

Lemma result_of_timed {A T} (e : T) (f : py A) : result_of (timed e f) = f.
Proof. unfold result_of, timed. now destruct f. Qed.

(** C1 (agreement law): for every n >= 5 the result component of
    [solve_with_formula n] is returned normally and equals the result
    component of [solve_with_dp n], which is the sum of
    [count_quadruples (n * k) n] over k = 1, 2, 3, and equals the result
    component of [solve_with_pair_sum n], which is the sum of
    [count_quadruples_pair_sum (n * k) n] over k = 1, 2, 3. *)
Theorem agreement_law {T : Type} (e1 e2 e3 : T) (n : Z)
  (sp : bool) (pp : option Z) (pd : option string) :
  5 <= n ->
  exists r d1 d2 d3 p1 p2 p3,
    result_of (solve_with_formula e1 n) = Ret r /\
    result_of (solve_with_dp e2 n sp pp pd) = Ret r /\
    result_of (solve_with_pair_sum e3 n sp pp pd) = Ret r /\
    count_quadruples (n * 1) n sp pp (mult_desc pd 1) = Ret d1 /\
    count_quadruples (n * 2) n sp pp (mult_desc pd 2) = Ret d2 /\
    count_quadruples (n * 3) n sp pp (mult_desc pd 3) = Ret d3 /\
    count_quadruples_pair_sum (n * 1) n sp pp (mult_desc pd 1) = Ret p1 /\
    count_quadruples_pair_sum (n * 2) n sp pp (mult_desc pd 2) = Ret p2 /\
    count_quadruples_pair_sum (n * 3) n sp pp (mult_desc pd 3) = Ret p3 /\
    r = d1 + d2 + d3 /\ r = p1 + p2 + p3.
Proof.
  intros Hn.
  exists (divisible_count n), (quadruple_count (n * 1) n),
    (quadruple_count (n * 2) n), (quadruple_count (n * 3) n),
    (quadruple_count (n * 1) n), (quadruple_count (n * 2) n),
    (quadruple_count (n * 3) n).
  unfold solve_with_formula, solve_with_dp, solve_with_pair_sum.
  rewrite !result_of_timed, formula_body_correct.
  rewrite (sum_over_multipliers_correct count_quadruples)
    by apply count_quadruples_correct.
  rewrite (sum_over_multipliers_correct count_quadruples_pair_sum)
    by apply count_quadruples_pair_sum_correct.
  rewrite !count_quadruples_correct, !count_quadruples_pair_sum_correct.
  rewrite (divisible_count_multipliers n Hn).
  repeat split; f_equal; lia.
Qed.

Lemma agreement_law_witness :
  5 <= 6 /\
  exists r d1 d2 d3 p1 p2 p3,
    result_of (solve_with_formula tt 6) = Ret r /\
    result_of (solve_with_dp tt 6 false None None) = Ret r /\
    result_of (solve_with_pair_sum tt 6 false None None) = Ret r /\
    count_quadruples (6 * 1) 6 false None (mult_desc None 1) = Ret d1 /\
    count_quadruples (6 * 2) 6 false None (mult_desc None 2) = Ret d2 /\
    count_quadruples (6 * 3) 6 false None (mult_desc None 3) = Ret d3 /\
    count_quadruples_pair_sum (6 * 1) 6 false None (mult_desc None 1)
      = Ret p1 /\
    count_quadruples_pair_sum (6 * 2) 6 false None (mult_desc None 2)
      = Ret p2 /\
    count_quadruples_pair_sum (6 * 3) 6 false None (mult_desc None 3)
      = Ret p3 /\
    r = d1 + d2 + d3 /\ r = p1 + p2 + p3.
Proof.
  split; [lia|]. apply (agreement_law tt tt tt 6 false None None). lia.
Defined.

(** C2: for all integers target_sum >= 0 and upper_bound >= 0,
    [count_quadruples] returns a non-negative integer, the number of tuples
    (a, b, c, d) with 1 <= a < b < c < d <= upper_bound and
    a + b + c + d = target_sum: the length of a duplicate-free list that
    holds exactly those tuples. *)
Theorem dp_counts_quadruples (target_sum upper_bound : Z)
  (sp : bool) (pp : option Z) (pd : option string) :
  0 <= target_sum -> 0 <= upper_bound ->
  exists l : list (Z * Z * Z * Z),
    NoDup l /\
    (forall a b c d,
       In (a, b, c, d) l <->
       1 <= a < b /\ b < c < d /\ d <= upper_bound /\
       a + b + c + d = target_sum) /\
    count_quadruples target_sum upper_bound sp pp pd =
      Ret (Z.of_nat (length l)) /\
    0 <= Z.of_nat (length l).
Proof.
  intros _ _. exists (quadruples target_sum upper_bound).
  split; [apply NoDup_quadruples|]. split; [apply In_quadruples|].
  split; [apply count_quadruples_correct|lia].
Qed.

Lemma dp_counts_quadruples_witness :
  0 <= 14 /\ 0 <= 7 /\
  exists l : list (Z * Z * Z * Z),
    NoDup l /\
    (forall a b c d,
       In (a, b, c, d) l <->
       1 <= a < b /\ b < c < d /\ d <= 7 /\ a + b + c + d = 14) /\
    count_quadruples 14 7 true None None = Ret (Z.of_nat (length l)) /\
    0 <= Z.of_nat (length l).
Proof.
  split; [lia|]. split; [lia|].
  apply (dp_counts_quadruples 14 7 true None None); lia.
Defined.

(** C3: for all integers target_sum >= 0 and upper_bound >= 0,
    [count_quadruples_pair_sum] returns a non-negative integer, the number
    of strictly increasing quadruples (a, b, c, d) with
    1 <= a < b < c < d <= upper_bound and a + b + c + d = target_sum. *)
Theorem pair_sum_counts_quadruples (target_sum upper_bound : Z)
  (sp : bool) (pp : option Z) (pd : option string) :
  0 <= target_sum -> 0 <= upper_bound ->
  exists l : list (Z * Z * Z * Z),
    NoDup l /\
    (forall a b c d,
       In (a, b, c, d) l <->
       1 <= a < b /\ b < c < d /\ d <= upper_bound /\
       a + b + c + d = target_sum) /\
    count_quadruples_pair_sum target_sum upper_bound sp pp pd =
      Ret (Z.of_nat (length l)) /\
    0 <= Z.of_nat (length l).
Proof.
  intros _ _. exists (quadruples target_sum upper_bound).
  split; [apply NoDup_quadruples|]. split; [apply In_quadruples|].
  split; [apply count_quadruples_pair_sum_correct|lia].
Qed.

Lemma pair_sum_counts_quadruples_witness :
  0 <= 14 /\ 0 <= 7 /\
  exists l : list (Z * Z * Z * Z),
    NoDup l /\
    (forall a b c d,
       In (a, b, c, d) l <->
       1 <= a < b /\ b < c < d /\ d <= 7 /\ a + b + c + d = 14) /\
    count_quadruples_pair_sum 14 7 true None None =
      Ret (Z.of_nat (length l)) /\
    0 <= Z.of_nat (length l).
Proof.
  split; [lia|]. split; [lia|].
  apply (pair_sum_counts_quadruples 14 7 true None None); lia.
Defined.

(** C4: for every integer n, the result component of [solve_with_formula n]
    is a non-negative integer, the number of strictly increasing quadruples
    (a, b, c, d) with 1 <= a < b < c < d <= n whose sum is divisible by n;
    it is 0 for every n < 5. *)
Theorem formula_counts_divisible {T : Type} (elapsed : T) (n : Z) :
  exists l : list (Z * Z * Z * Z),
    NoDup l /\
    (forall a b c d,
       In (a, b, c, d) l <->
       1 <= a < b /\ b < c < d /\ d <= n /\ (n | a + b + c + d)) /\
    result_of (solve_with_formula elapsed n) = Ret (Z.of_nat (length l)) /\
    0 <= Z.of_nat (length l) /\
    (n < 5 -> result_of (solve_with_formula elapsed n) = Ret 0).
Proof.
  exists (divisible_quadruples n).
  unfold solve_with_formula. rewrite result_of_timed, formula_body_correct.
  split; [apply NoDup_divisible_quadruples|].
  split; [apply In_divisible_quadruples|].
  split; [reflexivity|]. split; [lia|].
  intros H. f_equal. now apply divisible_out_of_range.
Qed.

(** Forgetting the trace gives the counters themselves, on every input. *)
Lemma count_quadruples_traced_result N M sp pp pd :
  snd (count_quadruples_traced N M sp pp pd) = count_quadruples N M sp pp pd.
Proof.
  unfold count_quadruples_traced, count_quadruples.
  destruct ((N <? 10) || (N >? 4 * M - 6)); reflexivity.
Qed.

Lemma count_quadruples_pair_sum_traced_result N M sp pp pd :
  snd (count_quadruples_pair_sum_traced N M sp pp pd) =
  count_quadruples_pair_sum N M sp pp pd.
Proof.
  unfold count_quadruples_pair_sum_traced, count_quadruples_pair_sum.
  destruct ((N <? 10) || (N >? 4 * M - 6)); reflexivity.
Qed.

(** Inside the band the table and the histogram are built: the dynamic
    program creates the outer list and five rows of [target_sum + 1] zeros,
    the sweep one histogram of [2 * upper_bound + 1] zeros. *)
Lemma traced_in_band N M sp pp pd :
  10 <= N <= 4 * M - 6 ->
  fst (count_quadruples_traced N M sp pp pd) =
    [NewList; NewZeros (N + 1); NewZeros (N + 1); NewZeros (N + 1);
     NewZeros (N + 1); NewZeros (N + 1)] /\
  fst (count_quadruples_pair_sum_traced N M sp pp pd) =
    [NewZeros (2 * M + 1)].
Proof.
  intros H. unfold count_quadruples_traced, count_quadruples_pair_sum_traced.
  assert (G : (N <? 10) || (N >? 4 * M - 6) = false).
  { apply orb_false_iff. rewrite Z.ltb_ge, Z.gtb_ltb, Z.ltb_ge. lia. }
  rewrite G. split; reflexivity.
Qed.

Example traced_11_5 :
  count_quadruples_traced 11 5 true None None =
    ([NewList; NewZeros 12; NewZeros 12; NewZeros 12; NewZeros 12;
      NewZeros 12], Ret 1) /\
  count_quadruples_pair_sum_traced 11 5 true None None =
    ([NewZeros 11], Ret 1).
Proof. vm_compute. split; reflexivity. Qed.

(** C5 (range short-circuit): for all integers N and M with N < 10 or
    N > 4 * M - 6, both [count_quadruples N M] and
    [count_quadruples_pair_sum N M] return 0 through the guard that opens
    each function: the run ends with no list created, neither the table
    nor the histogram. *)
Theorem range_short_circuit (N M : Z)
  (sp : bool) (pp : option Z) (pd : option string) :
  N < 10 \/ N > 4 * M - 6 ->
  count_quadruples_traced N M sp pp pd = ([], Ret 0) /\
  count_quadruples_pair_sum_traced N M sp pp pd = ([], Ret 0) /\
  count_quadruples N M sp pp pd = Ret 0 /\
  count_quadruples_pair_sum N M sp pp pd = Ret 0.
Proof.
  intros H.
  assert (G : (N <? 10) || (N >? 4 * M - 6) = true).
  { apply orb_true_iff. rewrite Z.ltb_lt, Z.gtb_gt. lia. }
  unfold count_quadruples_traced, count_quadruples_pair_sum_traced,
    count_quadruples, count_quadruples_pair_sum.
  rewrite G. repeat split.
Qed.

Lemma range_short_circuit_witness :
  (23 < 10 \/ 23 > 4 * 7 - 6) /\
  count_quadruples_traced 23 7 true None None = ([], Ret 0) /\
  count_quadruples_pair_sum_traced 23 7 true None None = ([], Ret 0) /\
  count_quadruples 23 7 true None None = Ret 0 /\
  count_quadruples_pair_sum 23 7 true None None = Ret 0.
Proof.
  split; [right; lia|].
  apply (range_short_circuit 23 7 true None None). right. lia.
Defined.

(** C6 (exact divisions): for every integer n >= 5 each floor division that
    [solve_with_formula] performs has remainder zero: n divides
    comb(n, 4) * 4; with base = comb(n, 4) * 4 // n, 4 divides base when
    n mod 4 is 1 or 3, 8 divides 2 * base + n - 2 when n mod 4 = 2, and
    8 divides 2 * base + n - 6 when n mod 4 = 0; the division executed in
    each branch is the one named. *)
Theorem formula_divisions_exact (n : Z) :
  5 <= n ->
  exists c base,
    comb n 4 = Ret c /\
    floordiv (c * 4) n = Ret base /\
    (c * 4) mod n = 0 /\ base * n = c * 4 /\
    (n mod 4 = 1 \/ n mod 4 = 3 ->
       base mod 4 = 0 /\ formula_body n = floordiv base 4) /\
    (n mod 4 = 2 ->
       (base * 2 + n - 2) mod 8 = 0 /\
       formula_body n = floordiv (base * 2 + n - 2) 8) /\
    (n mod 4 = 0 ->
       (base * 2 + n - 6) mod 8 = 0 /\
       formula_body n = floordiv (base * 2 + n - 6) 8).
Proof.
  intros Hn.
  destruct (formula_values n Hn) as (base & Hb & Hodd & H2 & H0).
  exists (wsub (fun _ => 1) 0 (Z.to_nat n) 4 0), base.
  assert (Hbody : forall r, n mod 4 = r ->
            formula_body n =
            if (r =? 1) || (r =? 3) then floordiv base 4
            else if r =? 2 then floordiv (base * 2 + n - 2) 8
            else if r =? 0 then floordiv (base * 2 + n - 6) 8
            else Ret 0).
  { intros r Hr. unfold formula_body.
    destruct (Z.ltb_spec n 5); [lia|].
    rewrite comb_4 by lia. cbn [bind]. unfold floordiv at 1, pymod.
    destruct (Z.eqb_spec n 0); [lia|]. cbn [bind Z.eqb].
    now rewrite Hb, Z.div_mul, Hr by lia. }
  split; [apply comb_4; lia|].
  split.
  { unfold floordiv. destruct (Z.eqb_spec n 0); [lia|].
    now rewrite Hb, Z.div_mul by lia. }
  split; [rewrite Hb; apply Z.mod_mul; lia|].
  split; [lia|].
  split; [|split].
  - intros Hr. split.
    + rewrite Hodd by assumption. apply Z.mod_mul. lia.
    + destruct Hr as [Hr|Hr]; now rewrite (Hbody _ Hr).
  - intros Hr. split.
    + rewrite H2 by assumption. apply Z.mod_mul. lia.
    + now rewrite (Hbody _ Hr).
  - intros Hr. split.
    + rewrite H0 by assumption. apply Z.mod_mul. lia.
    + now rewrite (Hbody _ Hr).
Qed.

Lemma formula_divisions_exact_witness :
  5 <= 8 /\
  exists c base,
    comb 8 4 = Ret c /\
    floordiv (c * 4) 8 = Ret base /\
    (c * 4) mod 8 = 0 /\ base * 8 = c * 4 /\
    (8 mod 4 = 1 \/ 8 mod 4 = 3 ->
       base mod 4 = 0 /\ formula_body 8 = floordiv base 4) /\
    (8 mod 4 = 2 ->
       (base * 2 + 8 - 2) mod 8 = 0 /\
       formula_body 8 = floordiv (base * 2 + 8 - 2) 8) /\
    (8 mod 4 = 0 ->
       (base * 2 + 8 - 6) mod 8 = 0 /\
       formula_body 8 = floordiv (base * 2 + 8 - 6) 8).
Proof.
  split; [lia|]. apply (formula_divisions_exact 8). lia.
Defined.

(** C7 (concrete scenario, amended): [count_quadruples 11 5] returns 1 and
    [count_quadruples_pair_sum 11 5] returns 1; the only quadruple over
    {1, ..., 5} with sum 11 is (1, 2, 3, 5). *)
Theorem scenario_11_5 (sp : bool) (pp : option Z) (pd : option string) :
  quadruples 11 5 = [(1, 2, 3, 5)] /\
  count_quadruples 11 5 sp pp pd = Ret 1 /\
  count_quadruples_pair_sum 11 5 sp pp pd = Ret 1.
Proof.
  rewrite count_quadruples_correct, count_quadruples_pair_sum_correct.
  unfold quadruple_count. rewrite quadruples_11_5. repeat split.
Qed.

(** C7, as stated, fails: neither counter returns 2 on (11, 5). *)
Lemma scenario_11_5_not_2 :
  (count_quadruples 11 5 true None None = Ret 2 \/
   count_quadruples_pair_sum 11 5 true None None = Ret 2) <-> False.
Proof.
  split; [|tauto].
  intros [H|H]; vm_compute in H; discriminate H.
Qed.

(** C8 (amended): reflection symmetry holds. For all integers N and M,
    [count_quadruples N M] equals [count_quadruples (4 * M + 4 - N) M]:
    a |-> M + 1 - a maps the quadruples of sum N onto those of sum
    4 * M + 4 - N, and the range guard is symmetric too. *)
Theorem reflection_symmetry (N M : Z)
  (sp : bool) (pp : option Z) (pd : option string) :
  count_quadruples N M sp pp pd =
  count_quadruples (4 * M + 4 - N) M sp pp pd.
Proof. apply count_quadruples_reflect. Qed.

(** C8, as stated, fails: no pair (N, M) separates the two calls. *)
Lemma no_asymmetric_pair :
  (exists N M,
     count_quadruples N M true None None <>
     count_quadruples (4 * M + 4 - N) M true None None) <-> False.
Proof.
  split; [|tauto].
  intros (N & M & H). apply H. apply count_quadruples_reflect.
Qed.

(** C9 (progress-sink noninterference): whatever [show_progress],
    [progress_position] and [progress_desc] are, both counters return what
    they return with [show_progress = False] and the other two arguments at
    their default [None]. *)
Theorem progress_noninterference (target_sum upper_bound : Z)
  (show_progress : bool) (progress_position : option Z)
  (progress_desc : option string) :
  count_quadruples target_sum upper_bound show_progress progress_position
    progress_desc =
  count_quadruples target_sum upper_bound false None None /\
  count_quadruples_pair_sum target_sum upper_bound show_progress
    progress_position progress_desc =
  count_quadruples_pair_sum target_sum upper_bound false None None.
Proof.
  unfold count_quadruples, count_quadruples_pair_sum.
  destruct show_progress; split; reflexivity.
Qed.

(** C10 (non-positive inputs): for every integer target_sum and every
    upper_bound <= 3, and for every target_sum < 10 with any upper_bound,
    zero and negative values included, both counters return 0 normally;
    nothing is raised. *)
Theorem small_inputs_return_zero (target_sum upper_bound : Z)
  (sp : bool) (pp : option Z) (pd : option string) :
  upper_bound <= 3 \/ target_sum < 10 ->
  count_quadruples target_sum upper_bound sp pp pd = Ret 0 /\
  count_quadruples_pair_sum target_sum upper_bound sp pp pd = Ret 0.
Proof.
  intros H. unfold count_quadruples, count_quadruples_pair_sum.
  assert (G : (target_sum <? 10) || (target_sum >? 4 * upper_bound - 6)
              = true).
  { apply orb_true_iff. rewrite Z.ltb_lt, Z.gtb_gt. lia. }
  rewrite G. split; reflexivity.
Qed.

Lemma small_inputs_return_zero_witness :
  (-2 <= 3 \/ 12 < 10) /\
  count_quadruples 12 (-2) true None None = Ret 0 /\
  count_quadruples_pair_sum 12 (-2) true None None = Ret 0.
Proof.
  split; [left; lia|].
  apply (small_inputs_return_zero 12 (-2) true None None). left. lia.
Defined.

(* ===================================================================== *)
(** ** Further properties of the counters *)
(* ===================================================================== *)

Lemma quadruple_count_positive N M :
  10 <= N <= 4 * M - 6 -> 1 <= quadruple_count N M.
Proof.
  intros H.
  assert (Hq : exists q, In q (quadruples N M)).
  { destruct (Z_le_gt_dec N (M + 6)).
    - exists (1, 2, 3, N - 6). apply In_quadruples. lia.
    - destruct (Z_le_gt_dec N (2 * M + 2)).
      + exists (1, 2, N - 3 - M, M). apply In_quadruples. lia.
      + destruct (Z_le_gt_dec N (3 * M - 2)).
        * exists (1, N - 2 * M, M - 1, M). apply In_quadruples. lia.
        * exists (N - 3 * M + 3, M - 2, M - 1, M). apply In_quadruples. lia. }
  destruct Hq as [q Hq]. unfold quadruple_count.
  destruct (quadruples N M); [contradiction|]. cbn [length]. lia.
Qed.

Lemma quadruple_count_mono N M M' :
  M <= M' -> quadruple_count N M <= quadruple_count N M'.
Proof.
  intros H. unfold quadruple_count. apply inj_le.
  apply NoDup_incl_length; [apply NoDup_quadruples|].
  intros [[[a b] c] d] Hin. apply In_quadruples in Hin.
  apply In_quadruples. lia.
Qed.

Lemma quadruple_count_saturated N M M' :
  N - 6 <= M -> M <= M' -> quadruple_count N M = quadruple_count N M'.
Proof.
  intros H1 H2. apply Z.le_antisymm; [now apply quadruple_count_mono|].
  unfold quadruple_count. apply inj_le.
  apply NoDup_incl_length; [apply NoDup_quadruples|].
  intros [[[a b] c] d] Hin. apply In_quadruples in Hin.
  apply In_quadruples. lia.
Qed.

Lemma sum4_sumZ {A} (f : A -> Z -> Z -> Z -> Z -> Z) (L : list A) R :
  sumZ (fun x => sum4 R (f x)) L =
  sum4 R (fun a b c d => sumZ (fun x => f x a b c d) L).
Proof.
  unfold sum4. rewrite sumZ_swap. apply sumZ_ext; intros a _.
  rewrite sumZ_swap. apply sumZ_ext; intros b _.
  rewrite sumZ_swap. apply sumZ_ext; intros c _.
  apply sumZ_swap.
Qed.

Lemma quadruple_count_total M :
  sumZ (fun N => quadruple_count N M) (range 10 (4 * M - 5)) =
  wsub (fun _ => 1) 0 (Z.to_nat M) 4 0.
Proof.
  rewrite <- (sum4_wsub (fun _ => 1) M).
  rewrite (sumZ_ext _ (fun N => sum4 (range 1 (M + 1))
             (fun a b c d => ind (increasing (a, b, c, d)) *
                             ind (a + b + c + d =? N)))).
  2:{ intros N _. unfold quadruple_count, quadruples.
      exact (count_quadruples_sum4 (fun s => s =? N) M). }
  rewrite (sum4_sumZ (fun N a b c d => ind (increasing (a, b, c, d)) *
                                       ind (a + b + c + d =? N))).
  apply sum4_ext. intros a b c d Ha Hb Hc Hd.
  apply In_range in Ha, Hb, Hc, Hd.
  destruct (increasing (a, b, c, d)) eqn:E.
  - cbn [increasing] in E. rewrite !andb_true_iff, !Z.ltb_lt in E.
    rewrite (sumZ_ext _ (fun N => if N =? a + b + c + d then 1 else 0)).
    + apply (sumZ_point 10 (4 * M - 5) (a + b + c + d) (fun _ => 1)). lia.
    + intros N _. rewrite Z.eqb_sym.
      destruct (N =? a + b + c + d); reflexivity.
  - now apply sumZ_zero.
Qed.

Lemma for_each_accumulate (f : Z -> Z) l acc :
  for_each l (fun N acc => x <- Ret (f N) ;; Ret (acc + x)) acc =
  Ret (acc + sumZ f l).
Proof.
  revert acc. induction l as [|N l IH]; intros acc.
  - cbn. f_equal. lia.
  - cbn [for_each bind]. rewrite IH, sumZ_cons. f_equal. lia.
Qed.

Lemma divisible_count_multipliers_any n :
  divisible_count n =
  quadruple_count (n * 1) n + quadruple_count (n * 2) n +
  quadruple_count (n * 3) n.
Proof.
  destruct (Z_lt_le_dec n 5) as [H|H].
  - rewrite divisible_out_of_range by assumption.
    rewrite !quadruples_out_of_range by lia. reflexivity.
  - now apply divisible_count_multipliers.
Qed.

Lemma solve_with_formula_value {T} (e : T) n :
  solve_with_formula e n = Ret (divisible_count n, e).
Proof.
  unfold solve_with_formula, timed. now rewrite formula_body_correct.
Qed.

Lemma solve_with_dp_value {T} (e : T) n sp pp pd :
  solve_with_dp e n sp pp pd = Ret (divisible_count n, e).
Proof.
  unfold solve_with_dp, timed.
  rewrite (sum_over_multipliers_correct count_quadruples)
    by apply count_quadruples_correct.
  rewrite divisible_count_multipliers_any. reflexivity.
Qed.

Lemma solve_with_pair_sum_value {T} (e : T) n sp pp pd :
  solve_with_pair_sum e n sp pp pd = Ret (divisible_count n, e).
Proof.
  unfold solve_with_pair_sum, timed.
  rewrite (sum_over_multipliers_correct count_quadruples_pair_sum)
    by apply count_quadruples_pair_sum_correct.
  rewrite divisible_count_multipliers_any. reflexivity.
Qed.

Lemma distinct_count_same x : distinct_count [x; x; x] = 1%nat.
Proof.
  unfold distinct_count. cbn.
  destruct (Z.eq_dec x x) as [_|Hne]; [reflexivity|congruence].
Qed.

Lemma harness_loop {T} (elapsed : nat -> T) fmt values rows bar_n :
  for_each values (harness_step elapsed fmt) (rows, [], bar_n) =
  Ret (rows ++ report_rows elapsed fmt (length rows) values, [],
       bar_n + Z.of_nat (length values)).
Proof.
  revert rows bar_n.
  induction values as [|n values IH]; intros rows bar_n.
  - cbn. rewrite app_nil_r. do 2 f_equal. lia.
  - cbn [for_each]. unfold harness_step at 1.
    rewrite solve_with_formula_value. cbn [bind].
    rewrite solve_with_dp_value. cbn [bind].
    rewrite solve_with_pair_sum_value. cbn [bind].
    rewrite distinct_count_same. cbn [Nat.eqb negb].
    rewrite IH. rewrite length_app. cbn [length report_rows].
    replace (length rows + 1)%nat with (S (length rows)) by lia.
    rewrite <- app_assoc. cbn [app].
    do 2 f_equal. lia.
Qed.

Lemma for_each_ext {S} (l : list Z) (f g : Z -> S -> py S) s :
  (forall x a, f x a = g x a) -> for_each l f s = for_each l g s.
Proof.
  intros H. revert s. induction l as [|x l IH]; intros s; [reflexivity|].
  cbn [for_each]. rewrite H. destruct (g x s); cbn [bind]; auto.
Qed.

Lemma closed_form n :
  5 <= n ->
  24 * divisible_count n =
  (n - 1) * (n - 2) * (n - 3) + 3 * formula_adjust n.
Proof.
  intros Hn.
  destruct (formula_values n Hn) as (base & Hb & Hodd & H2 & H0).
  pose proof (total_count n ltac:(lia)) as HT.
  assert (H6 : 6 * base = (n - 1) * (n - 2) * (n - 3)).
  { apply (Z.mul_reg_l _ _ n); [lia|].
    replace (n * (6 * base)) with (6 * (base * n)) by ring.
    rewrite <- Hb. lia. }
  unfold formula_adjust.
  destruct (mod4_cases n) as [Hr | [Hr | [Hr | Hr]]]; rewrite Hr;
    cbn [Z.eqb Pos.eqb].
  - specialize (H0 Hr). lia.
  - specialize (Hodd (or_introl Hr)). lia.
  - specialize (H2 Hr). lia.
  - specialize (Hodd (or_intror Hr)). lia.
Qed.

(* ===================================================================== *)
(** ** Further theorems *)
(* ===================================================================== *)

(** X1 (pairwise agreement): on every pair of integers, whatever the
    progress arguments of either call, [count_quadruples] and
    [count_quadruples_pair_sum] return the same count, and neither
    raises. *)
Theorem counters_agree (N M : Z) (sp sp' : bool) (pp pp' : option Z)
  (pd pd' : option string) :
  exists x,
    count_quadruples N M sp pp pd = Ret x /\
    count_quadruples_pair_sum N M sp' pp' pd' = Ret x.
Proof.
  exists (quadruple_count N M).
  split; [apply count_quadruples_correct
         |apply count_quadruples_pair_sum_correct].
Qed.

(** X2 (the guard is exact): both counters return 0 exactly when
    target_sum < 10 or target_sum > 4 * upper_bound - 6; inside the band
    the count is at least 1. *)
Theorem zero_exactly_outside_band (N M : Z) (sp : bool) (pp : option Z)
  (pd : option string) :
  exists x,
    count_quadruples N M sp pp pd = Ret x /\
    count_quadruples_pair_sum N M sp pp pd = Ret x /\
    0 <= x /\
    (x = 0 <-> N < 10 \/ N > 4 * M - 6).
Proof.
  exists (quadruple_count N M).
  split; [apply count_quadruples_correct|].
  split; [apply count_quadruples_pair_sum_correct|].
  split; [unfold quadruple_count; lia|]. split.
  - intros H0.
    destruct (Z_lt_le_dec N 10); [now left|].
    destruct (Z_le_gt_dec N (4 * M - 6)); [|right; lia].
    pose proof (quadruple_count_positive N M ltac:(lia)). lia.
  - apply quadruples_out_of_range.
Qed.

(** X3 (monotone in the upper bound): raising upper_bound never lowers the
    count returned for a target sum, for either counter. *)
Theorem count_monotone_in_bound (N M M' : Z) (sp : bool) (pp : option Z)
  (pd : option string) :
  M <= M' ->
  exists x y,
    count_quadruples N M sp pp pd = Ret x /\
    count_quadruples N M' sp pp pd = Ret y /\
    count_quadruples_pair_sum N M sp pp pd = Ret x /\
    count_quadruples_pair_sum N M' sp pp pd = Ret y /\
    x <= y.
Proof.
  intros H. exists (quadruple_count N M), (quadruple_count N M').
  rewrite !count_quadruples_correct, !count_quadruples_pair_sum_correct.
  repeat split. now apply quadruple_count_mono.
Qed.

Lemma count_monotone_in_bound_witness :
  7 <= 9 /\
  exists x y,
    count_quadruples 20 7 false None None = Ret x /\
    count_quadruples 20 9 false None None = Ret y /\
    count_quadruples_pair_sum 20 7 false None None = Ret x /\
    count_quadruples_pair_sum 20 9 false None None = Ret y /\
    x <= y.
Proof.
  split; [lia|]. apply (count_monotone_in_bound 20 7 9 false None None). lia.
Defined.

(** X4 (saturation): once upper_bound >= target_sum - 6 a larger bound
    changes nothing, since the largest element of a quadruple with sum N is
    at most N - 6; both counters return the same count for every bound from
    there on. *)
Theorem count_saturates (N M M' : Z) (sp : bool) (pp : option Z)
  (pd : option string) :
  N - 6 <= M -> M <= M' ->
  count_quadruples N M' sp pp pd = count_quadruples N M sp pp pd /\
  count_quadruples_pair_sum N M' sp pp pd =
  count_quadruples_pair_sum N M sp pp pd.
Proof.
  intros H1 H2.
  rewrite !count_quadruples_correct, !count_quadruples_pair_sum_correct.
  rewrite (quadruple_count_saturated N M M') by assumption. split; reflexivity.
Qed.

Lemma count_saturates_witness :
  16 - 6 <= 10 /\ 10 <= 40 /\
  count_quadruples 16 40 false None None =
  count_quadruples 16 10 false None None /\
  count_quadruples_pair_sum 16 40 false None None =
  count_quadruples_pair_sum 16 10 false None None.
Proof.
  split; [lia|]. split; [lia|].
  apply (count_saturates 16 10 40 false None None); lia.
Defined.

(** X5 (reflection symmetry of the pair-sum counter): for all integers N
    and M, [count_quadruples_pair_sum N M] equals
    [count_quadruples_pair_sum (4 * M + 4 - N) M]. *)
Theorem pair_sum_reflection_symmetry (N M : Z) (sp : bool) (pp : option Z)
  (pd : option string) :
  count_quadruples_pair_sum N M sp pp pd =
  count_quadruples_pair_sum (4 * M + 4 - N) M sp pp pd.
Proof.
  rewrite !count_quadruples_pair_sum_correct. f_equal.
  apply quadruple_count_reflect.
Qed.

(** X6 (small n): for every integer n < 5, zero and negatives included,
    [solve_with_dp n] and [solve_with_pair_sum n] return 0 as their result
    component: each of the three counter calls falls outside the band. *)
Theorem solvers_zero_below_5 {T : Type} (e1 e2 : T) (n : Z) (sp : bool)
  (pp : option Z) (pd : option string) :
  n < 5 ->
  solve_with_dp e1 n sp pp pd = Ret (0, e1) /\
  solve_with_pair_sum e2 n sp pp pd = Ret (0, e2).
Proof.
  intros H. rewrite solve_with_dp_value, solve_with_pair_sum_value.
  rewrite divisible_out_of_range by assumption. split; reflexivity.
Qed.

Lemma solvers_zero_below_5_witness :
  4 < 5 /\
  solve_with_dp tt 4 false None None = Ret (0, tt) /\
  solve_with_pair_sum tt 4 false None None = Ret (0, tt).
Proof.
  split; [lia|]. apply (solvers_zero_below_5 tt tt 4 false None None). lia.
Defined.

(** X7 (the harness never reports a mismatch): for every list of integer
    values, every clock and every duration format, the harness prints no
    warning; it prints only the table, which holds one row per value in
    order, the three result cells of a row all showing the number of
    quadruples whose sum is divisible by the value, and the overall
    progress bar ends at [len(values)]. *)
Theorem harness_report {T : Type} (elapsed : nat -> T) (fmt : T -> string)
  (values : list Z) :
  harness elapsed fmt values =
  Ret ([PrintTable
          (mk_table "Quadruple Counts"
             ["n"; "公式结果"; "公式耗时(s)"; "DP结果"; "DP耗时(s)";
              "Pair结果"; "Pair耗时(s)"]%string
             (report_rows elapsed fmt 0 values))],
       Z.of_nat (length values)).
Proof.
  unfold harness. rewrite harness_loop. reflexivity.
Qed.

(** X8 (the counts add up): for upper_bound >= 0, adding
    [count_quadruples N upper_bound] over every target sum N of the band
    10 .. 4 * upper_bound - 6 gives [math.comb(upper_bound, 4)]. *)
Theorem counts_sum_to_comb (M : Z) (sp : bool) (pp : option Z)
  (pd : option string) :
  0 <= M ->
  exists c,
    comb M 4 = Ret c /\
    for_each (range 10 (4 * M - 5))
      (fun N acc => x <- count_quadruples N M sp pp pd ;; Ret (acc + x)) 0 =
    Ret c.
Proof.
  intros HM. exists (wsub (fun _ => 1) 0 (Z.to_nat M) 4 0). split.
  - destruct (Z_lt_le_dec M 4) as [H|H]; [|now apply comb_4].
    unfold comb. destruct (Z.ltb_spec M 0); [lia|]. cbn [orb Z.ltb Z.compare].
    destruct (Z.ltb_spec M 4); [|lia]. f_equal.
    pose proof (total_count M HM) as HT.
    assert (M = 0 \/ M = 1 \/ M = 2 \/ M = 3) as [-> | [-> | [-> | ->]]]
      by lia; lia.
  - rewrite (for_each_ext _ _
               (fun N acc => x <- Ret (quadruple_count N M) ;; Ret (acc + x))).
    + rewrite for_each_accumulate, quadruple_count_total. reflexivity.
    + intros N acc. now rewrite count_quadruples_correct.
Qed.

Lemma counts_sum_to_comb_witness :
  0 <= 6 /\
  exists c,
    comb 6 4 = Ret c /\
    for_each (range 10 (4 * 6 - 5))
      (fun N acc => x <- count_quadruples N 6 false None None ;;
                    Ret (acc + x)) 0 =
    Ret c.
Proof.
  split; [lia|]. apply (counts_sum_to_comb 6 false None None). lia.
Defined.

(** X9 (closed form without binomials): for n >= 5 the result r of
    [solve_with_formula n] satisfies
    24 * r = (n - 1) * (n - 2) * (n - 3) + 3 * adj, where adj is n - 2 when
    n mod 4 = 2, n - 6 when n mod 4 = 0, and 0 when n is odd. *)
Theorem formula_closed_form {T : Type} (elapsed : T) (n : Z) :
  5 <= n ->
  exists r,
    solve_with_formula elapsed n = Ret (r, elapsed) /\
    24 * r =
    (n - 1) * (n - 2) * (n - 3) +
    3 * (if n mod 4 =? 2 then n - 2 else if n mod 4 =? 0 then n - 6 else 0).
Proof.
  intros Hn. exists (divisible_count n).
  split; [apply solve_with_formula_value|].
  exact (closed_form n Hn).
Qed.

Lemma formula_closed_form_witness :
  5 <= 10 /\
  exists r,
    solve_with_formula tt 10 = Ret (r, tt) /\
    24 * r =
    (10 - 1) * (10 - 2) * (10 - 3) +
    3 * (if 10 mod 4 =? 2 then 10 - 2
         else if 10 mod 4 =? 0 then 10 - 6 else 0).
Proof.
  split; [lia|]. apply (formula_closed_form tt 10). lia.
Defined.
